(** * The 8-bit CPU emulator of [src/components/Computer.tsx]

    A shallow embedding of the [CPU] class (memory, register file, stack
    discipline, interrupt controller, instruction executor) and the
    properties of its three public operations [loadProgram],
    [requestInterrupt] and [tick].

    Modelling conventions.
    - A JavaScript value held by a register is a [jsval]: an integer number,
      an infinity, [NaN] or [undefined].  The program only produces integers,
      so a finite number is modelled by its value in [Z].  A JavaScript number
      is an IEEE 754 double: [+] and [++] return the double nearest to the
      exact result ([to_double]), which is the exact result up to 2^53 in
      magnitude and an infinity past the largest double.  SP and IE only
      ever hold integers between -1 and the length of the memory (the
      constructor's [memorySize - 1], then [SP--], [SP++], 0 and 1), where
      the arithmetic is exact: they are kept in [Z].
    - [this.memory] is a [Uint8Array]: a fixed-length list of cells, each
      written through the ToUint8 conversion.  An index that is not a valid
      integer index reads [undefined] and is not written.  The key
      [undefined] is not a numeric index: it names an ordinary property of
      the array object, kept in [prop_undefined].
    - [tick] mutates the object in place and may raise a [TypeError] from
      [undefined.toString(16)] while formatting a diagnostic; the mutations
      made before the exception persist.  An [outcome] carries the state in
      both cases.
    - [logMessage] is kept as a tagged message (template and arguments).

    The second half adds the parts of the presentation layer that compute
    (the program listing, the hexadecimal labels, the state updaters of
    [App]) and further properties of the class and of the sample image. *)

From Stdlib Require Import ZArith Lia List.
From Stdlib Require HexString.
From stdpp Require Import base decidable numbers strings list.

Local Open Scope Z_scope.

(** ** JavaScript values *)

Inductive jsval : Type :=
| Num (z : Z)
| NaN
| Undefined
| Infinity
| NegInfinity.

(** *** Number arithmetic

    Every integer up to 2^53 in magnitude is a double.  Above, a double has
    53 significant bits: between 2^e and 2^(e+1) the doubles are the
    multiples of 2^(e-52). *)

(** 2^53: up to here every integer is a double. *)
Definition MAX_EXACT : Z := 9007199254740992.

(** The double nearest to the integer [n >= 0], a tie going to the even
    significand; [None] when the result is past the largest double. *)
Definition round_magnitude (n : Z) : option Z :=
  if n <=? MAX_EXACT then Some n
  else
    let ulp := 2 ^ (Z.log2 n - 52) in
    let q := n / ulp in
    let r := n mod ulp in
    let half := ulp / 2 in
    let q' :=
      if r <? half then q
      else if half <? r then q + 1
      else if Z.even q then q else q + 1 in
    if q' * ulp <? 2 ^ 1024 then Some (q' * ulp) else None.

(** The number an arithmetic operation returns when its exact result is
    the integer [z]. *)
Definition to_double (z : Z) : jsval :=
  match round_magnitude (Z.abs z) with
  | Some m => Num (Z.sgn z * m)
  | None => if 0 <? z then Infinity else NegInfinity
  end.

Arguments to_double : simpl never.

(** [v++] and [v + 1]: ToNumber, then add one. *)
Definition js_incr (v : jsval) : jsval :=
  match v with
  | Num z => to_double (z + 1)
  | Infinity => Infinity
  | NegInfinity => NegInfinity
  | NaN | Undefined => NaN
  end.

(** [a + b] on numbers and [undefined]. *)
Definition js_add (a b : jsval) : jsval :=
  match a, b with
  | Num x, Num y => to_double (x + y)
  | Infinity, (Num _ | Infinity) | Num _, Infinity => Infinity
  | NegInfinity, (Num _ | NegInfinity) | Num _, NegInfinity => NegInfinity
  | _, _ => NaN
  end.

(** ToUint8: the conversion applied by a store into a [Uint8Array]. *)
Definition to_uint8 (v : jsval) : Z :=
  match v with
  | Num z => z mod 256
  | NaN | Undefined | Infinity | NegInfinity => 0
  end.

(** [v.toString(16)] raises a TypeError exactly when [v] is [undefined]. *)
Definition has_toString (v : jsval) : bool :=
  match v with
  | Undefined => false
  | _ => true
  end.

(** ** Instruction set and interrupt codes *)

Module InstructionSet.
Definition NOOP : Z := 0.
Definition LOAD_A_VAL : Z := 1.
Definition LOAD_B_VAL : Z := 2.
Definition LOAD_A_MEM : Z := 3.
Definition LOAD_B_MEM : Z := 4.
Definition STORE_A : Z := 5.
Definition STORE_B : Z := 6.
Definition ADD : Z := 7.
Definition HALT : Z := 8.
Definition ENABLE_INTERRUPTS : Z := 9.
Definition IRET : Z := 10.
Definition JMP : Z := 11.
Definition PUSH_A : Z := 12.
Definition POP_A : Z := 13.
Definition PUSH_B : Z := 14.
Definition POP_B : Z := 15.
End InstructionSet.

Module Interrupts.
Definition TIMER : Z := 1.
End Interrupts.

(** The labels of the [switch] in [decodeAndExecute]. *)
Inductive opcode : Type :=
| OpNOOP | OpLOAD_A_VAL | OpLOAD_B_VAL | OpLOAD_A_MEM | OpLOAD_B_MEM
| OpSTORE_A | OpSTORE_B | OpADD | OpHALT | OpENABLE_INTERRUPTS | OpIRET
| OpJMP | OpPUSH_A | OpPOP_A | OpPUSH_B | OpPOP_B.

(** Which [case] label a number is strictly equal to, if any. *)
Definition decode_num (z : Z) : option opcode :=
  if z =? InstructionSet.LOAD_A_VAL then Some OpLOAD_A_VAL
  else if z =? InstructionSet.LOAD_B_VAL then Some OpLOAD_B_VAL
  else if z =? InstructionSet.LOAD_A_MEM then Some OpLOAD_A_MEM
  else if z =? InstructionSet.LOAD_B_MEM then Some OpLOAD_B_MEM
  else if z =? InstructionSet.STORE_A then Some OpSTORE_A
  else if z =? InstructionSet.STORE_B then Some OpSTORE_B
  else if z =? InstructionSet.ADD then Some OpADD
  else if z =? InstructionSet.JMP then Some OpJMP
  else if z =? InstructionSet.ENABLE_INTERRUPTS then Some OpENABLE_INTERRUPTS
  else if z =? InstructionSet.IRET then Some OpIRET
  else if z =? InstructionSet.PUSH_A then Some OpPUSH_A
  else if z =? InstructionSet.POP_A then Some OpPOP_A
  else if z =? InstructionSet.PUSH_B then Some OpPUSH_B
  else if z =? InstructionSet.POP_B then Some OpPOP_B
  else if z =? InstructionSet.HALT then Some OpHALT
  else if z =? InstructionSet.NOOP then Some OpNOOP
  else None.

(** [switch (instruction)] compares with [===]: [NaN], [undefined] and the
    infinities match no label and fall to [default]. *)
Definition decode (ir : jsval) : option opcode :=
  match ir with
  | Num z => decode_num z
  | NaN | Undefined | Infinity | NegInfinity => None
  end.

(** ** Memory: a [Uint8Array] object *)

Record Memory : Type := mkMemory {
  cells : list Z;           (* the indexed elements *)
  prop_undefined : jsval    (* the object's property named "undefined" *)
}.

(** [memory.length] *)
Definition mem_length (m : Memory) : Z := Z.of_nat (length (cells m)).

(** The largest length a typed array can have, 2^53 - 1:
    [new Uint8Array(n)] raises a RangeError for a larger [n]. *)
Definition MAX_ARRAY_LENGTH : Z := 9007199254740991.

(** [memory[k]] as an rvalue.  The keys "NaN", "Infinity" and "-Infinity"
    are numeric but no valid index: they read [undefined]. *)
Definition mem_get (m : Memory) (k : jsval) : jsval :=
  match k with
  | Num i =>
      if 0 <=? i
      then match cells m !! Z.to_nat i with
           | Some b => Num b
           | None => Undefined
           end
      else Undefined
  | NaN | Infinity | NegInfinity => Undefined
  | Undefined => prop_undefined m
  end.

(** [memory[k] = v].  stdpp's list insert leaves the list alone past its
    end, as the typed array does. *)
Definition mem_set (m : Memory) (k : jsval) (v : jsval) : Memory :=
  match k with
  | Num i =>
      if 0 <=? i
      then mkMemory (<[Z.to_nat i := to_uint8 v]> (cells m)) (prop_undefined m)
      else m
  | NaN | Infinity | NegInfinity => m
  | Undefined => mkMemory (cells m) v
  end.

(** [new Uint8Array(memorySize)] *)
Definition new_Uint8Array (memorySize : nat) : Memory :=
  mkMemory (replicate memorySize 0) Undefined.

(** ** Register file *)

Record Registers : Type := mkRegisters {
  A : jsval;
  B : jsval;
  IR : jsval;
  MAR : jsval;
  MDR : Z;
  PC : jsval;
  SP : Z;
  IE : Z
}.

(** ** Diagnostic status *)

Inductive log : Type :=
| LogWaiting                                 (* "In attesa di avvio..." *)
| LogLoaded                                  (* "Programma caricato. ..." *)
| LogRequested (interrupt : Z)               (* "Richiesta di Interrupt ... ricevuta." *)
| LogHaltState                               (* "CPU in stato HALT." *)
| LogInterrupt (interruptType : Z) (isrAddress : jsval)
                                             (* "Interrupt ...! Salto a ISR @0x..." *)
| LogFetch (ir mar : jsval)                  (* "FETCH: Istruzione ... da @0x..." *)
| LogEnabled                                 (* "Interrupt Abilitati." *)
| LogIret (pc : jsval)                       (* "IRET: Ritorno a @0x... ." *)
| LogHalt                                    (* "HALT: Esecuzione terminata." *)
| LogUnknown (instruction : jsval).          (* "Istruzione sconosciuta: ..." *)

(** ** The CPU object *)

Record CPU : Type := mkCPU {
  memory : Memory;
  registers : Registers;
  halted : bool;
  interruptQueue : list Z;
  logMessage : log
}.

Definition set_memory (m : Memory) (s : CPU) : CPU :=
  mkCPU m (registers s) (halted s) (interruptQueue s) (logMessage s).
Definition set_registers (r : Registers) (s : CPU) : CPU :=
  mkCPU (memory s) r (halted s) (interruptQueue s) (logMessage s).
Definition set_halted (h : bool) (s : CPU) : CPU :=
  mkCPU (memory s) (registers s) h (interruptQueue s) (logMessage s).
Definition set_interruptQueue (q : list Z) (s : CPU) : CPU :=
  mkCPU (memory s) (registers s) (halted s) q (logMessage s).
Definition set_logMessage (l : log) (s : CPU) : CPU :=
  mkCPU (memory s) (registers s) (halted s) (interruptQueue s) l.

Definition set_A (v : jsval) (s : CPU) : CPU :=
  let r := registers s in
  set_registers (mkRegisters v (B r) (IR r) (MAR r) (MDR r) (PC r) (SP r) (IE r)) s.
Definition set_B (v : jsval) (s : CPU) : CPU :=
  let r := registers s in
  set_registers (mkRegisters (A r) v (IR r) (MAR r) (MDR r) (PC r) (SP r) (IE r)) s.
Definition set_IR (v : jsval) (s : CPU) : CPU :=
  let r := registers s in
  set_registers (mkRegisters (A r) (B r) v (MAR r) (MDR r) (PC r) (SP r) (IE r)) s.
Definition set_MAR (v : jsval) (s : CPU) : CPU :=
  let r := registers s in
  set_registers (mkRegisters (A r) (B r) (IR r) v (MDR r) (PC r) (SP r) (IE r)) s.
Definition set_PC (v : jsval) (s : CPU) : CPU :=
  let r := registers s in
  set_registers (mkRegisters (A r) (B r) (IR r) (MAR r) (MDR r) v (SP r) (IE r)) s.
Definition set_SP (v : Z) (s : CPU) : CPU :=
  let r := registers s in
  set_registers (mkRegisters (A r) (B r) (IR r) (MAR r) (MDR r) (PC r) v (IE r)) s.
Definition set_IE (v : Z) (s : CPU) : CPU :=
  let r := registers s in
  set_registers (mkRegisters (A r) (B r) (IR r) (MAR r) (MDR r) (PC r) (SP r) v) s.

(** Result of a method that may raise: the object as it is left. *)
Inductive outcome : Type :=
| Done (s : CPU)
| Threw (s : CPU).

Definition state_of (o : outcome) : CPU :=
  match o with
  | Done s | Threw s => s
  end.

Definition INTERRUPT_VECTOR_TABLE_START : Z := 0.
Definition TIMER_ISR_ADDRESS_POINTER : Z :=
  INTERRUPT_VECTOR_TABLE_START + Interrupts.TIMER.

(** [constructor(memorySize = 256)] *)
Definition new_CPU (memorySize : nat) : CPU :=
  mkCPU (new_Uint8Array memorySize)
        (mkRegisters (Num 0) (Num 0) (Num 0) (Num 0) 0 (Num 0)
                     (Z.of_nat memorySize - 1) 0)
        false [] LogWaiting.

(** The [forEach] of [loadProgram], from index [index] on.  The sum
    [startAddress + index] is exact wherever it can be below the length of
    a typed array, and a sum that is rounded is 2^53 or more in magnitude:
    the cells written are those of the exact sum. *)
Fixpoint load_from (startAddress : Z) (index : nat) (program : list Z)
    (m : Memory) : Memory :=
  match program with
  | [] => m
  | value :: rest =>
      let m' :=
        if startAddress + Z.of_nat index <? mem_length m
        then mem_set m (Num (startAddress + Z.of_nat index)) (Num value)
        else m in
      load_from startAddress (S index) rest m'
  end.

(** [loadProgram(program, startAddress = 0)] *)
Definition loadProgram (program : list Z) (startAddress : Z) (s : CPU) : CPU :=
  let s1 := set_memory (load_from startAddress 0 program (memory s)) s in
  let s2 := set_PC (Num startAddress) s1 in
  set_logMessage LogLoaded s2.

(** [requestInterrupt(interrupt)] *)
Definition requestInterrupt (interrupt : Z) (s : CPU) : CPU :=
  if bool_decide (interrupt ∈ interruptQueue s)
  then s
  else
    let s1 := set_interruptQueue (interruptQueue s ++ [interrupt]) s in
    set_logMessage (LogRequested interrupt) s1.

(** [pushToStack(value)] *)
Definition pushToStack (value : jsval) (s : CPU) : CPU :=
  let s1 := set_memory (mem_set (memory s) (Num (SP (registers s))) value) s in
  if 0 <? SP (registers s1)
  then set_SP (SP (registers s1) - 1) s1
  else s1.

(** [popFromStack()]: the returned value and the object afterwards. *)
Definition popFromStack (s : CPU) : jsval * CPU :=
  let s1 :=
    if SP (registers s) <? mem_length (memory s) - 1
    then set_SP (SP (registers s) + 1) s
    else s in
  (mem_get (memory s1) (Num (SP (registers s1))), s1).

(** [handleInterrupt()] *)
Definition handleInterrupt (s : CPU) : outcome :=
  match interruptQueue s with
  | [] => Done s
  | interruptType :: rest =>
      let s1 := set_interruptQueue rest s in
      if interruptType =? 0 then Done s1
      else
        let s2 := set_IE 0 s1 in
        let s3 := pushToStack (PC (registers s2)) s2 in
        let isrAddressPointer := TIMER_ISR_ADDRESS_POINTER in
        let isrAddress := mem_get (memory s3) (Num isrAddressPointer) in
        let s4 := set_PC isrAddress s3 in
        if has_toString isrAddress
        then Done (set_logMessage (LogInterrupt interruptType isrAddress) s4)
        else Threw s4
  end.

(** [fetch()] *)
Definition fetch (s : CPU) : outcome :=
  let s1 := set_MAR (PC (registers s)) s in
  let s2 := set_IR (mem_get (memory s1) (MAR (registers s1))) s1 in
  let s3 := set_PC (js_incr (PC (registers s2))) s2 in
  if has_toString (MAR (registers s3))
  then Done (set_logMessage (LogFetch (IR (registers s3)) (MAR (registers s3))) s3)
  else Threw s3.

(** [decodeAndExecute()] *)
Definition decodeAndExecute (s : CPU) : outcome :=
  let instruction := IR (registers s) in
  match decode instruction with
  | Some OpLOAD_A_VAL =>
      let operand1 := mem_get (memory s) (PC (registers s)) in
      let s1 := set_A operand1 s in
      Done (set_PC (js_incr (PC (registers s1))) s1)
  | Some OpLOAD_B_VAL =>
      let operand1 := mem_get (memory s) (PC (registers s)) in
      let s1 := set_B operand1 s in
      Done (set_PC (js_incr (PC (registers s1))) s1)
  | Some OpLOAD_A_MEM =>
      let operand1 := mem_get (memory s) (PC (registers s)) in
      let s1 := set_A (mem_get (memory s) operand1) s in
      Done (set_PC (js_incr (PC (registers s1))) s1)
  | Some OpLOAD_B_MEM =>
      let operand1 := mem_get (memory s) (PC (registers s)) in
      let s1 := set_B (mem_get (memory s) operand1) s in
      Done (set_PC (js_incr (PC (registers s1))) s1)
  | Some OpSTORE_A =>
      let operand1 := mem_get (memory s) (PC (registers s)) in
      let s1 := set_memory (mem_set (memory s) operand1 (A (registers s))) s in
      Done (set_PC (js_incr (PC (registers s1))) s1)
  | Some OpSTORE_B =>
      let operand1 := mem_get (memory s) (PC (registers s)) in
      let s1 := set_memory (mem_set (memory s) operand1 (B (registers s))) s in
      Done (set_PC (js_incr (PC (registers s1))) s1)
  | Some OpADD =>
      Done (set_A (js_add (A (registers s)) (B (registers s))) s)
  | Some OpJMP =>
      let operand1 := mem_get (memory s) (PC (registers s)) in
      Done (set_PC operand1 s)
  | Some OpENABLE_INTERRUPTS =>
      let s1 := set_IE 1 s in
      Done (set_logMessage LogEnabled s1)
  | Some OpIRET =>
      let '(v, s1) := popFromStack s in
      let s2 := set_PC v s1 in
      let s3 := set_IE 1 s2 in
      if has_toString (PC (registers s3))
      then Done (set_logMessage (LogIret (PC (registers s3))) s3)
      else Threw s3
  | Some OpPUSH_A => Done (pushToStack (A (registers s)) s)
  | Some OpPOP_A =>
      let '(v, s1) := popFromStack s in
      Done (set_A v s1)
  | Some OpPUSH_B => Done (pushToStack (B (registers s)) s)
  | Some OpPOP_B =>
      let '(v, s1) := popFromStack s in
      Done (set_B v s1)
  | Some OpHALT =>
      let s1 := set_halted true s in
      Done (set_logMessage LogHalt s1)
  | Some OpNOOP => Done s
  | None => Done (set_logMessage (LogUnknown instruction) s)
  end.

(** [tick()] *)
Definition tick (s : CPU) : outcome :=
  if halted s then Done (set_logMessage LogHaltState s)
  else if (IE (registers s) =? 1) && (0 <? Z.of_nat (length (interruptQueue s)))
  then handleInterrupt s
  else
    match fetch s with
    | Done s1 => decodeAndExecute s1
    | Threw s1 => Threw s1
    end.

(** [n] successive calls of [tick]; a caller that catches the exception
    keeps driving the same object. *)
Fixpoint ticks (n : nat) (s : CPU) : CPU :=
  match n with
  | O => s
  | S n' => ticks n' (state_of (tick s))
  end.

(** ** The sample image of the source *)

Definition MAIN_PROGRAM_START : Z := 0x20.
Definition ISR_START : Z := 0x80.
Definition COUNTER_ADDRESS : Z := 0xf0.
Definition VALUE_1_ADDR : Z := 0xf1.
Definition RESULT_ADDRESS : Z := 0xf4.
Definition INCREMENT_VALUE_ADDR : Z := 0xf5.
Definition RESULT_ADDRESS_2 : Z := 0xf6.
Definition INCREMENT_VALUE_2_ADDR : Z := 0xf7.

Definition ivt : list Z := [0x00; ISR_START].

Import InstructionSet.

Definition mainProgram : list Z :=
  [ LOAD_A_VAL; 0; STORE_A; RESULT_ADDRESS;
    LOAD_A_VAL; 0; STORE_A; RESULT_ADDRESS_2;
    ENABLE_INTERRUPTS;
    LOAD_A_MEM; RESULT_ADDRESS; LOAD_B_MEM; INCREMENT_VALUE_ADDR; ADD;
    STORE_A; RESULT_ADDRESS;
    LOAD_A_MEM; RESULT_ADDRESS_2; LOAD_B_MEM; INCREMENT_VALUE_2_ADDR; ADD;
    STORE_A; RESULT_ADDRESS_2;
    JMP; MAIN_PROGRAM_START + 9 ].

Definition isr : list Z :=
  [ PUSH_A; PUSH_B;
    LOAD_A_MEM; COUNTER_ADDRESS; LOAD_B_MEM; VALUE_1_ADDR; ADD;
    STORE_A; COUNTER_ADDRESS;
    POP_B; POP_A;
    IRET ].

Definition data : list (Z * Z) :=
  [ (COUNTER_ADDRESS, 0); (VALUE_1_ADDR, 1); (RESULT_ADDRESS, 0);
    (INCREMENT_VALUE_ADDR, 1); (RESULT_ADDRESS_2, 0);
    (INCREMENT_VALUE_2_ADDR, 2) ].

Definition createAndLoadCPU : CPU :=
  let cpu := new_CPU 256 in
  let cpu := loadProgram ivt INTERRUPT_VECTOR_TABLE_START cpu in
  let cpu := loadProgram mainProgram MAIN_PROGRAM_START cpu in
  let cpu := loadProgram isr ISR_START cpu in
  let cpu :=
    foldl (fun c av => set_memory (mem_set (memory c) (Num av.1) (Num av.2)) c)
          cpu data in
  set_PC (Num MAIN_PROGRAM_START) cpu.


(** ** Concrete states used to exercise the model

    Each is obtained by running the model; the value is stored evaluated. *)

(** The scenario of the specification: a five-byte program that halts on
    its fourth tick. *)
Definition halting_cpu : CPU := Eval vm_compute in
  ticks 4 (loadProgram [LOAD_A_VAL; 5; STORE_A; 0x10; HALT] 0 (new_CPU 256)).

(** A byte that is no opcode at the program counter. *)
Definition data_cpu : CPU := Eval vm_compute in
  loadProgram [0x42] 0 (new_CPU 256).

(** A = 200 and B = 100, with ADD next and STORE_A 0x10 after it. *)
Definition add_program : list Z :=
  [LOAD_A_VAL; 200; LOAD_B_VAL; 100; ADD; STORE_A; 0x10].
Definition add_cpu : CPU := Eval vm_compute in
  ticks 2 (loadProgram add_program 0 (new_CPU 256)).

(** One doubling of A by the public operations alone.  STORE_A and
    LOAD_B_MEM in the last cell read their operand past the end of the
    memory: they write and read the property [memory[undefined]], which
    holds a value as it is, not reduced to a byte.  ADD then adds B = A.
    This is how a register comes to hold more than a sum of two bytes. *)
Definition double_A (cpu : CPU) : CPU :=
  let cpu := ticks 1 (loadProgram [STORE_A] 255 cpu) in
  let cpu := ticks 1 (loadProgram [LOAD_B_MEM] 255 cpu) in
  ticks 1 (loadProgram [ADD] 0 cpu).

(** A = 1 after LOAD_A_VAL 1, the start of the doublings. *)
Definition one_cpu : CPU :=
  ticks 1 (loadProgram [LOAD_A_VAL; 1] 0 (new_CPU 256)).

(** A = 2^53 after 53 doublings, B = 1, and ADD next. *)
Definition big_A_script : CPU :=
  loadProgram [ADD] 0
    (ticks 1 (loadProgram [LOAD_B_VAL; 1] 0 (Nat.iter 53 double_A one_cpu))).
Definition big_A_cpu : CPU := Eval vm_compute in big_A_script.

(** The same run one tick later: A holds 300 and STORE_A 0x10 is next. *)
Definition store_cpu : CPU := Eval vm_compute in
  ticks 3 (loadProgram add_program 0 (new_CPU 256)).

(** The interrupt scenario of the specification: the TIMER vector points
    at a routine made of a single IRET, and the interrupt has just been
    taken. *)
Definition isr_cpu : CPU := Eval vm_compute in
  let cpu := new_CPU 256 in
  let cpu := loadProgram [0x00; 0x50] INTERRUPT_VECTOR_TABLE_START cpu in
  let cpu := loadProgram [IRET] 0x50 cpu in
  let cpu := loadProgram [ENABLE_INTERRUPTS; NOOP; JMP; 0x01] 0x02 cpu in
  ticks 1 (requestInterrupt Interrupts.TIMER (ticks 1 cpu)).

(** The sample image after its set-up, interrupts enabled. *)
Definition enabled_cpu : CPU := Eval vm_compute in ticks 5 createAndLoadCPU.

(** The same with a TIMER request pending. *)
Definition pending_cpu : CPU := Eval vm_compute in
  requestInterrupt Interrupts.TIMER enabled_cpu.

(** A vector table with entries for codes 1 and 2, interrupts enabled, and a
    request for code 2 pending. *)
Definition code2_cpu : CPU := Eval vm_compute in
  let cpu := new_CPU 256 in
  let cpu := loadProgram [0x00; 0x80; 0x90] INTERRUPT_VECTOR_TABLE_START cpu in
  let cpu := loadProgram [ENABLE_INTERRUPTS; NOOP; JMP; 0x21] 0x20 cpu in
  requestInterrupt 2 (ticks 1 cpu).

(** The sample image at the JMP that closes its main loop. *)
Definition jmp_cpu : CPU := Eval vm_compute in ticks 13 createAndLoadCPU.

(** The states an outside caller can produce with the public contract:
    construction with capacity [C], then any sequence of [loadProgram],
    [requestInterrupt] and [tick] (whether or not the call raised). *)
Inductive reachable (C : nat) : CPU -> Prop :=
| reach_new : reachable C (new_CPU C)
| reach_loadProgram s program startAddress :
    reachable C s -> reachable C (loadProgram program startAddress s)
| reach_requestInterrupt s interrupt :
    reachable C s -> reachable C (requestInterrupt interrupt s)
| reach_tick s :
    reachable C s -> reachable C (state_of (tick s)).

(** Every cell is an unsigned 8-bit value. *)
Definition is_byte (b : Z) : Prop := 0 <= b < 256.
Definition bytes_ok (m : Memory) : Prop := Forall is_byte (cells m).

(** The condition under which [tick] runs fetch and execute. *)
Definition no_service (s : CPU) : Prop :=
  IE (registers s) <> 1 \/ interruptQueue s = [].

(** The state [fetch] leaves when [PC] holds the number [p]. *)
Definition fetched (p : Z) (s : CPU) : CPU :=
  let ir := mem_get (memory s) (Num p) in
  set_logMessage (LogFetch ir (Num p))
    (set_PC (js_incr (Num p)) (set_IR ir (set_MAR (Num p) s))).

(** Two states that agree on everything but the diagnostic. *)
Definition same_machine (s s' : CPU) : Prop :=
  registers s' = registers s /\ memory s' = memory s /\
  interruptQueue s' = interruptQueue s /\ halted s' = halted s.

(** A running tick whose fetch reads the byte [op] at address [p] of the
    typed array. *)
Definition executes (s : CPU) (p op : Z) : Prop :=
  halted s = false /\ no_service s /\
  PC (registers s) = Num p /\ 0 <= p /\
  cells (memory s) !! Z.to_nat p = Some op /\
  mem_length (memory s) <= MAX_ARRAY_LENGTH.

(** The memory has [C] cells and SP addresses one of them. *)
Definition stack_ok (C : nat) (s : CPU) : Prop :=
  mem_length (memory s) = Z.of_nat C /\
  0 <= SP (registers s) <= Z.of_nat C - 1.

(** No interrupt code is queued twice. *)
Definition queue_ok (s : CPU) : Prop := NoDup (interruptQueue s).

(** ** The presentation layer

    The React components of the file, as far as they compute: the
    disassembly shown beside the memory, the hexadecimal labels, and the
    state updaters that copy the CPU object before each operation. *)

(** [Object.entries(InstructionSet)], in declaration order. *)
Definition InstructionSet_entries : list (String.string * Z) :=
  [ ("NOOP"%string, NOOP); ("LOAD_A_VAL"%string, LOAD_A_VAL);
    ("LOAD_B_VAL"%string, LOAD_B_VAL); ("LOAD_A_MEM"%string, LOAD_A_MEM);
    ("LOAD_B_MEM"%string, LOAD_B_MEM); ("STORE_A"%string, STORE_A);
    ("STORE_B"%string, STORE_B); ("ADD"%string, ADD); ("HALT"%string, HALT);
    ("ENABLE_INTERRUPTS"%string, ENABLE_INTERRUPTS); ("IRET"%string, IRET);
    ("JMP"%string, JMP); ("PUSH_A"%string, PUSH_A); ("POP_A"%string, POP_A);
    ("PUSH_B"%string, PUSH_B); ("POP_B"%string, POP_B) ].

(** [InstructionNames[value]]: the object built by [Object.fromEntries]
    from the entries with key and value swapped; a later entry with the
    same number would win. *)
Definition InstructionNames (value : Z) : option String.string :=
  match filter (fun kv => kv.2 = value) (reverse InstructionSet_entries) with
  | kv :: _ => Some kv.1
  | [] => None
  end.

(** One entry of the program listing. *)
Inductive listing : Type :=
| Line (address : Z) (instruction : String.string) (operand : option Z)
       (instructionEnum : Z)
| Separator (instruction : String.string).

(** The opcodes [parseSection] treats as followed by an operand. *)
Definition operand_opcodes : list Z :=
  [LOAD_A_VAL; LOAD_B_VAL; LOAD_A_MEM; LOAD_B_MEM; STORE_A; STORE_B; JMP].

(** [parseSection(section, startAddr)]: the loop over [i], on the part of
    the section from [i] on, with [currentAddr]. *)
Fixpoint parseSection (section : list Z) (currentAddr : Z) : list listing :=
  match section with
  | [] => []
  | instructionEnum :: rest =>
      let instruction :=
        match InstructionNames instructionEnum with
        | Some name => name
        | None => "DATA"%string
        end in
      if bool_decide (instructionEnum ∈ operand_opcodes)
      then
        match rest with
        | [] => [Line currentAddr instruction None instructionEnum]
        | operand :: rest' =>
            Line currentAddr instruction (Some operand) instructionEnum
            :: parseSection rest' (currentAddr + 2)
        end
      else
        Line currentAddr instruction None instructionEnum
        :: parseSection rest (currentAddr + 1)
  end.

(** [parsedProgram()] *)
Definition parsedProgram : list listing :=
  parseSection mainProgram MAIN_PROGRAM_START
  ++ [Separator "--- ISR ---"%string]
  ++ parseSection isr ISR_START.

(** The bytes a listing entry stands for. *)
Definition listing_bytes (entry : listing) : list Z :=
  match entry with
  | Line _ _ (Some operand) instructionEnum => [instructionEnum; operand]
  | Line _ _ None instructionEnum => [instructionEnum]
  | Separator _ => []
  end.

(** [value.toString(16)] for an integer, an infinity, NaN or undefined
    (which raises). *)
Definition toString16 (value : jsval) : option String.string :=
  match value with
  | Num Z0 => Some "0"%string
  | Num (Zpos p) => Some (HexString.Raw.of_pos p ""%string)
  | Num (Zneg p) => Some (String.append "-"%string (HexString.Raw.of_pos p ""%string))
  | NaN => Some "NaN"%string
  | Infinity => Some "Infinity"%string
  | NegInfinity => Some "-Infinity"%string
  | Undefined => None
  end.

(** [s.padStart(targetLength, "0")] *)
Definition padStart0 (targetLength : nat) (s : String.string) : String.string :=
  Nat.iter (targetLength - String.length s) (String.append "0"%string) s.

(** The label [0x${value.toString(16).padStart(2, "0")}] of [Register],
    [MemoryCell] and [ProgramView]. *)
Definition hex_label (value : jsval) : option String.string :=
  match toString16 value with
  | Some digits => Some (String.append "0x"%string (padStart0 2 digits))
  | None => None
  end.

(** The copy of the CPU object the state updaters of [App] work on:
    [new CPU()], then the memory cells, the registers, the halted flag and
    the queue of the previous object.  [new Uint8Array(prevCpu.memory)]
    copies the cells only, and [logMessage] is not copied. *)
Definition copy_of (prevCpu : CPU) : CPU :=
  let newCpu := new_CPU 256 in
  let newCpu := set_memory (mkMemory (cells (memory prevCpu)) Undefined) newCpu in
  let newCpu := set_registers (registers prevCpu) newCpu in
  let newCpu := set_halted (halted prevCpu) newCpu in
  set_interruptQueue (interruptQueue prevCpu) newCpu.

(** The updater of [tick] in [App]; the new state is what it returns. *)
Definition App_tick (prevCpu : CPU) : outcome :=
  tick (copy_of prevCpu).

(** The updater of [handleTriggerInterrupt]. *)
Definition handleTriggerInterrupt (prevCpu : CPU) : CPU :=
  requestInterrupt Interrupts.TIMER (copy_of prevCpu).

(** ** Auxiliary notions for the properties below *)

(** Whether a call raised. *)
Definition raised (o : outcome) : bool :=
  match o with
  | Done _ => false
  | Threw _ => true
  end.

(** The number each [case] label of [decodeAndExecute] stands for. *)
Definition opcode_code (op : opcode) : Z :=
  match op with
  | OpNOOP => NOOP
  | OpLOAD_A_VAL => LOAD_A_VAL
  | OpLOAD_B_VAL => LOAD_B_VAL
  | OpLOAD_A_MEM => LOAD_A_MEM
  | OpLOAD_B_MEM => LOAD_B_MEM
  | OpSTORE_A => STORE_A
  | OpSTORE_B => STORE_B
  | OpADD => ADD
  | OpHALT => HALT
  | OpENABLE_INTERRUPTS => ENABLE_INTERRUPTS
  | OpIRET => IRET
  | OpJMP => JMP
  | OpPUSH_A => PUSH_A
  | OpPOP_A => POP_A
  | OpPUSH_B => PUSH_B
  | OpPOP_B => POP_B
  end.

(** The entries of a list in the order of their first occurrence. *)
Definition first_occurrences (l : list Z) : list Z :=
  reverse (remove_dups (reverse l)).

(** A burst of calls of [requestInterrupt], in the order given. *)
Definition requestInterrupts (interrupts : list Z) (s : CPU) : CPU :=
  foldl (fun cpu interrupt => requestInterrupt interrupt cpu) s interrupts.

(** The halting scenario two ticks in, with HALT next. *)
Definition halt_next_cpu : CPU := Eval vm_compute in
  ticks 2 (loadProgram [LOAD_A_VAL; 5; STORE_A; 0x10; HALT] 0 (new_CPU 256)).

(** The memory holds the bytes of [image] from address [start] on. *)
Definition image_at (m : Memory) (start : Z) (image : list Z) : Prop :=
  forall i value,
    image !! i = Some value ->
    cells m !! Z.to_nat (start + Z.of_nat i) = Some value.

(** The CPU is at the head of the main loop of the sample image (the
    address the closing JMP targets), running, with no request pending,
    the two result cells holding [r1] and [r2] and the two increment cells
    [i1] and [i2]. *)
Definition at_loop_head (s : CPU) (r1 i1 r2 i2 : Z) : Prop :=
  halted s = false /\ interruptQueue s = [] /\
  PC (registers s) = Num (MAIN_PROGRAM_START + 9) /\
  image_at (memory s) MAIN_PROGRAM_START mainProgram /\
  cells (memory s) !! Z.to_nat RESULT_ADDRESS = Some r1 /\
  cells (memory s) !! Z.to_nat INCREMENT_VALUE_ADDR = Some i1 /\
  cells (memory s) !! Z.to_nat RESULT_ADDRESS_2 = Some r2 /\
  cells (memory s) !! Z.to_nat INCREMENT_VALUE_2_ADDR = Some i2.

(** What one pass of the main loop leaves in a result cell that held [r],
    the increment cell holding [i]: LOAD_A_MEM, LOAD_B_MEM, ADD, STORE_A. *)
Definition loop_sum (i r : Z) : Z := to_uint8 (js_add (Num r) (Num i)).

(** * Basic facts *)

(** Arithmetic is exact up to 2^53 in magnitude. *)
Lemma to_double_exact (z : Z) :
  - MAX_EXACT <= z <= MAX_EXACT -> to_double z = Num z.
Proof.
  intros Hz. unfold to_double, round_magnitude.
  destruct (Z.leb_spec (Z.abs z) MAX_EXACT) as [_|H]; [|lia].
  f_equal. unfold MAX_EXACT in Hz. lia.
Qed.

Lemma js_incr_exact (p : Z) :
  - MAX_EXACT <= p + 1 <= MAX_EXACT -> js_incr (Num p) = Num (p + 1).
Proof. apply to_double_exact. Qed.

Lemma js_add_exact (a b : Z) :
  - MAX_EXACT <= a + b <= MAX_EXACT -> js_add (Num a) (Num b) = Num (a + b).
Proof. apply to_double_exact. Qed.

(** The sum of two bytes is exact. *)
Lemma to_uint8_add_bytes (a b : Z) :
  is_byte a -> is_byte b -> to_uint8 (js_add (Num a) (Num b)) = (a + b) mod 256.
Proof.
  unfold is_byte. intros Ha Hb.
  rewrite js_add_exact by (unfold MAX_EXACT; lia). reflexivity.
Qed.

(** An address that holds a cell of a typed array, and the addresses up to
    two past it, are below 2^53. *)
Lemma cell_address_exact (m : Memory) (p v : Z) :
  0 <= p -> cells m !! Z.to_nat p = Some v ->
  mem_length m <= MAX_ARRAY_LENGTH ->
  0 <= p /\ p + 2 <= MAX_EXACT.
Proof.
  intros Hp Hv Hm. apply lookup_lt_Some in Hv.
  unfold mem_length, MAX_ARRAY_LENGTH in Hm. unfold MAX_EXACT. lia.
Qed.

(** The doubles around 2^53 and at the top of the range. *)
Example to_double_samples :
  to_double (2 ^ 53 + 1) = Num (2 ^ 53) /\
  to_double (2 ^ 53 + 2) = Num (2 ^ 53 + 2) /\
  to_double (2 ^ 53 + 3) = Num (2 ^ 53 + 4) /\
  to_double (- (2 ^ 53 + 3)) = Num (- (2 ^ 53 + 4)) /\
  to_double (2 ^ 1024 - 2 ^ 971) = Num (2 ^ 1024 - 2 ^ 971) /\
  to_double (2 ^ 1024 - 2 ^ 970 - 1) = Num (2 ^ 1024 - 2 ^ 971) /\
  to_double (2 ^ 1024 - 2 ^ 970) = Infinity /\
  to_double (- 2 ^ 1024) = NegInfinity /\
  js_incr (Num (2 ^ 53)) = Num (2 ^ 53) /\
  js_add (Num (2 ^ 1023)) (Num (2 ^ 1023)) = Infinity /\
  js_add Infinity NegInfinity = NaN /\
  js_add Undefined (Num 1) = NaN.
Proof. vm_compute. repeat split. Qed.

(** Rewrites the sums that the hypotheses keep within the exact range. *)
Ltac exact_arith :=
  repeat match goal with
         | |- context [to_double ?z] =>
             rewrite (to_double_exact z) by (unfold MAX_EXACT in *; lia);
             cbn [js_incr js_add]
         end.

Section MemoryFacts.
Variable m : Memory.

Lemma mem_get_cell (p v : Z) :
  0 <= p -> cells m !! Z.to_nat p = Some v -> mem_get m (Num p) = Num v.
Proof.
  intros Hp Hv. unfold mem_get.
  destruct (Z.leb_spec 0 p); [|lia]. now rewrite Hv.
Qed.

Lemma mem_get_in_range (p : Z) :
  0 <= p < mem_length m -> exists v, cells m !! Z.to_nat p = Some v.
Proof.
  intros Hp. unfold mem_length in Hp.
  apply lookup_lt_is_Some_2. lia.
Qed.

Lemma mem_set_length (k v : jsval) : mem_length (mem_set m k v) = mem_length m.
Proof.
  unfold mem_length, mem_set. destruct k as [i| | | |]; trivial.
  destruct (0 <=? i); trivial. cbn. now rewrite length_insert.
Qed.

Lemma mem_get_set_same (i : Z) (v : jsval) :
  0 <= i < mem_length m ->
  mem_get (mem_set m (Num i) v) (Num i) = Num (to_uint8 v).
Proof.
  intros Hi. unfold mem_length in Hi. unfold mem_get, mem_set.
  destruct (Z.leb_spec 0 i); [|lia]. cbn.
  rewrite list_lookup_insert_eq by lia. reflexivity.
Qed.

Lemma to_uint8_byte (v : jsval) : is_byte (to_uint8 v).
Proof.
  unfold is_byte. destruct v as [z| | | |]; cbn; try lia.
  apply Z.mod_pos_bound. lia.
Qed.

Lemma mem_set_bytes_ok (k v : jsval) : bytes_ok m -> bytes_ok (mem_set m k v).
Proof.
  unfold bytes_ok, mem_set. intros Hm. destruct k as [i| | | |]; trivial.
  destruct (0 <=? i); trivial. cbn.
  apply Forall_insert; [assumption | apply to_uint8_byte].
Qed.
End MemoryFacts.

Lemma decode_num_unknown (v : Z) : 16 <= v -> decode_num v = None.
Proof.
  intros Hv. unfold decode_num.
  repeat match goal with
         | |- context [?a =? ?b] =>
             destruct (Z.eqb_spec a b) as [He|_];
             [unfold InstructionSet.NOOP, InstructionSet.LOAD_A_VAL,
                InstructionSet.LOAD_B_VAL, InstructionSet.LOAD_A_MEM,
                InstructionSet.LOAD_B_MEM, InstructionSet.STORE_A,
                InstructionSet.STORE_B, InstructionSet.ADD,
                InstructionSet.HALT, InstructionSet.ENABLE_INTERRUPTS,
                InstructionSet.IRET, InstructionSet.JMP,
                InstructionSet.PUSH_A, InstructionSet.POP_A,
                InstructionSet.PUSH_B, InstructionSet.POP_B in He; lia|]
         end.
  reflexivity.
Qed.

Section TickFacts.
Variable s : CPU.

Lemma tick_halted : halted s = true -> tick s = Done (set_logMessage LogHaltState s).
Proof. intros H. unfold tick. now rewrite H. Qed.

Lemma tick_fetch_execute :
  halted s = false -> no_service s ->
  tick s = match fetch s with
           | Done s1 => decodeAndExecute s1
           | Threw s1 => Threw s1
           end.
Proof.
  intros Hh Hn. unfold tick. rewrite Hh.
  destruct Hn as [Hie | Hq].
  - destruct (Z.eqb_spec (IE (registers s)) 1); [contradiction | reflexivity].
  - rewrite Hq. cbn. now rewrite andb_false_r.
Qed.

Lemma fetch_num (p : Z) : PC (registers s) = Num p -> fetch s = Done (fetched p s).
Proof.
  intros Hp. unfold fetch, fetched. cbn. rewrite Hp. reflexivity.
Qed.

(** One running tick at a numeric program counter: fetch, then execute. *)
Lemma tick_running (p : Z) :
  halted s = false -> no_service s -> PC (registers s) = Num p ->
  tick s = decodeAndExecute (fetched p s).
Proof.
  intros Hh Hn Hp. rewrite tick_fetch_execute by assumption.
  now rewrite (fetch_num p).
Qed.

Lemma fetched_IR (p v : Z) :
  0 <= p -> cells (memory s) !! Z.to_nat p = Some v ->
  IR (registers (fetched p s)) = Num v.
Proof.
  intros Hp Hv. unfold fetched. cbn. now apply mem_get_cell.
Qed.
End TickFacts.

(** * The scenarios of the specification, run on the model *)

Example fresh_cpu :
  SP (registers (new_CPU 256)) = 255 /\ PC (registers (new_CPU 256)) = Num 0 /\
  IE (registers (new_CPU 256)) = 0 /\ halted (new_CPU 256) = false.
Proof. repeat split. Qed.

Example halting_scenario :
  mem_get (memory halting_cpu) (Num 0x10) = Num 5 /\
  halted halting_cpu = true /\
  same_machine halting_cpu (ticks 1 halting_cpu).
Proof. vm_compute. repeat split. Qed.

Example interrupt_scenario :
  PC (registers isr_cpu) = Num 0x50 /\
  IE (registers isr_cpu) = 0 /\
  mem_get (memory isr_cpu) (Num 255) = Num 3 /\
  SP (registers isr_cpu) = 254 /\
  PC (registers (ticks 1 isr_cpu)) = Num 3 /\
  IE (registers (ticks 1 isr_cpu)) = 1 /\
  SP (registers (ticks 1 isr_cpu)) = 255.
Proof. vm_compute. repeat split. Qed.

(** An instruction whose operand lies past the end of the memory reads
    [undefined]; a JMP there leaves PC undefined, and the next [fetch]
    raises while formatting its diagnostic, after it has updated MAR, IR
    and PC. *)
Example fetch_raises :
  let s := loadProgram [JMP] 255 (new_CPU 256) in
  PC (registers (state_of (tick s))) = Undefined /\
  tick (state_of (tick s))
  = Threw (set_PC NaN (set_IR Undefined (set_MAR Undefined (state_of (tick s))))).
Proof. vm_compute. split; reflexivity. Qed.

(** A queued code 0 is falsy: [handleInterrupt] drops it and returns. *)
Lemma handleInterrupt_code_zero s rest :
  interruptQueue s = 0 :: rest ->
  handleInterrupt s = Done (set_interruptQueue rest s).
Proof. intros Hq. unfold handleInterrupt. now rewrite Hq. Qed.

(** * The claims *)

(** C3. The halted state is terminal: when [halted] is true, [tick] returns
    normally having only rewritten the diagnostic, and after any number of
    further ticks the registers (A, B, IR, MAR, MDR, PC, SP, IE), the memory,
    the interrupt queue and the halted flag still have their values. *)
Theorem tick_halted_terminal (s : CPU) (n : nat) :
  halted s = true ->
  tick s = Done (set_logMessage LogHaltState s) /\
  same_machine s (ticks n s) /\ halted (ticks n s) = true.
Proof.
  intros Hh. split; [now apply tick_halted|].
  revert s Hh. induction n as [|n IH]; intros s Hh.
  - cbn. unfold same_machine. auto.
  - cbn [ticks]. rewrite tick_halted by assumption. cbn [state_of].
    destruct (IH (set_logMessage LogHaltState s) Hh) as [(Hr & Hm & Hq & Hf) Ht].
    unfold same_machine. cbn in Hr, Hm, Hq, Hf. rewrite Hr, Hm, Hq, Hf, Hh.
    repeat split; reflexivity || assumption.
Qed.

Lemma tick_halted_terminal_witness :
  tick halting_cpu = Done (set_logMessage LogHaltState halting_cpu) /\
  same_machine halting_cpu (ticks 3 halting_cpu) /\
  halted (ticks 3 halting_cpu) = true.
Proof. apply (tick_halted_terminal halting_cpu 3). reflexivity. Defined.

(** C8. A fetch-execute tick that fetches a byte [v >= 16] (no defined
    opcode) returns normally and changes nothing beyond the fetch: IR is
    [v], MAR is the old PC, PC has advanced by one; A, B, MDR, SP, IE, the
    memory, the interrupt queue and the halted flag are unchanged. *)
Theorem tick_unknown_opcode (s : CPU) (p v : Z) :
  executes s p v -> 16 <= v ->
  exists s',
    tick s = Done s' /\
    IR (registers s') = Num v /\
    MAR (registers s') = Num p /\
    PC (registers s') = Num (p + 1) /\
    A (registers s') = A (registers s) /\
    B (registers s') = B (registers s) /\
    MDR (registers s') = MDR (registers s) /\
    SP (registers s') = SP (registers s) /\
    IE (registers s') = IE (registers s) /\
    memory s' = memory s /\
    interruptQueue s' = interruptQueue s /\
    halted s' = false.
Proof.
  intros (Hh & Hn & Hpc & Hp & Hv & Hmax) Hge.
  pose proof (cell_address_exact _ p v Hp Hv Hmax) as Hex.
  rewrite (tick_running s p) by assumption.
  unfold decodeAndExecute. rewrite (fetched_IR s p v) by assumption.
  cbn [decode]. rewrite decode_num_unknown by assumption.
  eexists. split; [reflexivity|].
  unfold fetched. cbn -[mem_get]. rewrite (mem_get_cell _ p v) by assumption.
  exact_arith.
  repeat split; assumption || reflexivity.
Qed.

Lemma tick_unknown_opcode_witness :
  exists s',
    tick data_cpu = Done s' /\
    IR (registers s') = Num 0x42 /\
    MAR (registers s') = Num 0 /\
    PC (registers s') = Num (0 + 1) /\
    A (registers s') = A (registers data_cpu) /\
    B (registers s') = B (registers data_cpu) /\
    MDR (registers s') = MDR (registers data_cpu) /\
    SP (registers s') = SP (registers data_cpu) /\
    IE (registers s') = IE (registers data_cpu) /\
    memory s' = memory data_cpu /\
    interruptQueue s' = interruptQueue data_cpu /\
    halted s' = false.
Proof.
  apply (tick_unknown_opcode data_cpu 0 0x42).
  - unfold executes. split; [reflexivity|]. split; [right; reflexivity|].
    split; [reflexivity|]. split; [lia|]. split; [reflexivity | vm_compute; discriminate].
  - lia.
Defined.

(** C5, as amended.  ADD sets A to the sum of A and B as JavaScript
    computes it, with no reduction modulo 256: the exact integer sum
    whenever that is at most 2^53 in magnitude (so A may exceed 255), and
    the double nearest to it beyond.  B, SP, IE and the memory are
    unchanged; PC has only the fetch's advance of one. *)
Theorem tick_ADD_exact_sum (s : CPU) (p a b : Z) :
  executes s p ADD ->
  A (registers s) = Num a -> B (registers s) = Num b ->
  exists s',
    tick s = Done s' /\
    A (registers s') = to_double (a + b) /\
    (- MAX_EXACT <= a + b <= MAX_EXACT -> A (registers s') = Num (a + b)) /\
    B (registers s') = Num b /\
    PC (registers s') = Num (p + 1) /\
    SP (registers s') = SP (registers s) /\
    IE (registers s') = IE (registers s) /\
    memory s' = memory s /\
    interruptQueue s' = interruptQueue s /\
    halted s' = false.
Proof.
  intros (Hh & Hn & Hpc & Hp & Hv & Hmax) Ha Hb.
  pose proof (cell_address_exact _ p ADD Hp Hv Hmax) as Hex.
  rewrite (tick_running s p) by assumption.
  unfold decodeAndExecute. rewrite (fetched_IR s p ADD) by assumption.
  cbn [decode]. change (decode_num ADD) with (Some OpADD). cbn iota.
  eexists. split; [reflexivity|].
  unfold fetched. cbn. rewrite Ha, Hb. cbn.
  split; [reflexivity|]. split; [apply to_double_exact|].
  exact_arith.
  repeat split; assumption || reflexivity.
Qed.

Lemma tick_ADD_exact_sum_witness :
  exists s',
    tick add_cpu = Done s' /\
    A (registers s') = Num 300 /\
    B (registers s') = Num 100 /\
    PC (registers s') = Num (4 + 1) /\
    SP (registers s') = SP (registers add_cpu) /\
    IE (registers s') = IE (registers add_cpu) /\
    memory s' = memory add_cpu /\
    interruptQueue s' = interruptQueue add_cpu /\
    halted s' = false.
Proof.
  destruct (tick_ADD_exact_sum add_cpu 4 200 100)
    as (s' & Ht & _ & Hsum & Hrest).
  - unfold executes. split; [reflexivity|]. split; [right; reflexivity|].
    split; [reflexivity|]. split; [lia|]. split; [reflexivity | vm_compute; discriminate].
  - reflexivity.
  - reflexivity.
  - exists s'. split; [exact Ht|]. split; [|exact Hrest].
    apply Hsum. vm_compute. split; discriminate.
Defined.

(** The state [big_A_cpu] is produced by the public operations. *)
Lemma reachable_double_A (C : nat) (s : CPU) :
  reachable C s -> reachable C (double_A s).
Proof.
  intros Hs. unfold double_A. cbn [ticks].
  apply reach_tick, reach_loadProgram, reach_tick, reach_loadProgram,
    reach_tick, reach_loadProgram, Hs.
Qed.

Lemma reachable_doublings (C : nat) (s : CPU) (n : nat) :
  reachable C s -> reachable C (Nat.iter n double_A s).
Proof.
  intros Hs. induction n as [|n IH]; [exact Hs|].
  change (Nat.iter (S n) double_A s) with (double_A (Nat.iter n double_A s)).
  now apply reachable_double_A.
Qed.

Lemma big_A_cpu_reachable : reachable 256 big_A_cpu.
Proof.
  assert (E : big_A_cpu = big_A_script) by (vm_compute; reflexivity).
  rewrite E. unfold big_A_script, one_cpu. cbn [ticks].
  apply reach_loadProgram, reach_tick, reach_loadProgram, reachable_doublings,
    reach_tick, reach_loadProgram, reach_new.
Qed.

(** C5, counterexample to the claim as stated: with A = 2^53 and B = 1, in
    a state the public operations produce, ADD leaves A = 2^53 and not the
    integer sum 2^53 + 1, which is not a double. *)
Lemma ADD_rounds_counterexample :
  reachable 256 big_A_cpu /\
  executes big_A_cpu 0 ADD /\
  A (registers big_A_cpu) = Num MAX_EXACT /\
  B (registers big_A_cpu) = Num 1 /\
  A (registers (state_of (tick big_A_cpu))) = Num MAX_EXACT /\
  A (registers (state_of (tick big_A_cpu))) <> Num (MAX_EXACT + 1).
Proof.
  split; [exact big_A_cpu_reachable|]. split.
  - unfold executes. split; [reflexivity|]. split; [right; reflexivity|].
    split; [reflexivity|]. split; [lia|]. split; [reflexivity | vm_compute; discriminate].
  - vm_compute. repeat split; discriminate.
Qed.

(** C7. IRET pops the stack into PC (SP is incremented unless it is already
    capacity-1, then PC is the cell at the new SP) and sets IE to 1; A, B and
    the memory are as before the instruction. *)
Theorem tick_IRET (s : CPU) (p : Z) :
  executes s p IRET ->
  let s' := state_of (tick s) in
  let sp' := if SP (registers s) <? mem_length (memory s) - 1
             then SP (registers s) + 1 else SP (registers s) in
  SP (registers s') = sp' /\
  PC (registers s') = mem_get (memory s) (Num sp') /\
  IE (registers s') = 1 /\
  A (registers s') = A (registers s) /\
  B (registers s') = B (registers s) /\
  memory s' = memory s /\
  interruptQueue s' = interruptQueue s /\
  halted s' = false.
Proof.
  intros (Hh & Hn & Hpc & Hp & Hv & Hmax). cbv zeta.
  pose proof (cell_address_exact _ _ _ Hp Hv Hmax) as Hex.
  rewrite (tick_running s p) by assumption.
  unfold decodeAndExecute. rewrite (fetched_IR s p IRET) by assumption.
  cbn [decode]. change (decode_num IRET) with (Some OpIRET). cbn iota.
  unfold popFromStack, fetched. cbn.
  destruct (SP (registers s) <? mem_length (memory s) - 1); cbn;
    match goal with
    | |- context [has_toString ?v] => destruct (has_toString v)
    end; cbn; repeat split; assumption || reflexivity.
Qed.

Lemma tick_IRET_witness :
  let s' := state_of (tick isr_cpu) in
  SP (registers s') = 255 /\
  PC (registers s') = Num 3 /\
  IE (registers s') = 1 /\
  A (registers s') = A (registers isr_cpu) /\
  B (registers s') = B (registers isr_cpu) /\
  memory s' = memory isr_cpu /\
  interruptQueue s' = interruptQueue isr_cpu /\
  halted s' = false.
Proof.
  apply (tick_IRET isr_cpu 0x50).
  unfold executes. split; [reflexivity|]. split; [right; reflexivity|].
  split; [reflexivity|]. split; [lia|]. split; [reflexivity | vm_compute; discriminate].
Defined.

(** * Invariants of the public contract *)

(** A property of the object that survives every primitive mutation the
    class performs survives the three public operations. *)
Section Preservation.
Variable P : CPU -> Prop.

Hypothesis P_registers :
  forall s r, SP r = SP (registers s) -> P s -> P (set_registers r s).
Hypothesis P_halted : forall s h, P s -> P (set_halted h s).
Hypothesis P_logMessage : forall s l, P s -> P (set_logMessage l s).
Hypothesis P_store :
  forall s k v, P s -> P (set_memory (mem_set (memory s) k v) s).
Hypothesis P_decrement :
  forall s, 0 < SP (registers s) -> P s -> P (set_SP (SP (registers s) - 1) s).
Hypothesis P_increment :
  forall s, SP (registers s) < mem_length (memory s) - 1 ->
            P s -> P (set_SP (SP (registers s) + 1) s).
Hypothesis P_shift :
  forall s c rest, interruptQueue s = c :: rest -> P s -> P (set_interruptQueue rest s).
Hypothesis P_enqueue :
  forall s c, c ∉ interruptQueue s -> P s -> P (set_interruptQueue (interruptQueue s ++ [c]) s).

Ltac setters :=
  unfold set_A, set_B, set_IR, set_MAR, set_PC, set_IE; cbv zeta;
  repeat first
    [ assumption
    | apply P_logMessage
    | apply P_halted
    | apply P_registers; [reflexivity|] ].

Lemma pushToStack_preserves s v : P s -> P (pushToStack v s).
Proof.
  intros Hs. unfold pushToStack. cbv zeta.
  destruct (Z.ltb_spec 0 (SP (registers (set_memory (mem_set (memory s) (Num (SP (registers s))) v) s)))).
  - apply P_decrement; [assumption|]. now apply P_store.
  - now apply P_store.
Qed.

Lemma popFromStack_preserves s : P s -> P (popFromStack s).2.
Proof.
  intros Hs. unfold popFromStack. cbn [snd].
  destruct (Z.ltb_spec (SP (registers s)) (mem_length (memory s) - 1)).
  - now apply P_increment.
  - assumption.
Qed.

Lemma fetch_preserves s : P s -> P (state_of (fetch s)).
Proof.
  intros Hs. unfold fetch. cbv zeta.
  match goal with
  | |- context [has_toString ?v] => destruct (has_toString v)
  end; cbn [state_of]; setters.
Qed.

Lemma decodeAndExecute_preserves s : P s -> P (state_of (decodeAndExecute s)).
Proof.
  intros Hs. unfold decodeAndExecute. cbv zeta.
  pose proof (popFromStack_preserves s Hs) as Hpop.
  destruct (decode (IR (registers s))) as [[]|];
    try destruct (popFromStack s) as [v s1]; cbn [snd] in Hpop;
    try match goal with
        | |- context [has_toString ?v] => destruct (has_toString v)
        end;
    cbn [state_of]; setters;
    try (apply pushToStack_preserves; assumption);
    try (apply P_store; assumption).
Qed.

Lemma handleInterrupt_preserves s : P s -> P (state_of (handleInterrupt s)).
Proof.
  intros Hs. unfold handleInterrupt.
  destruct (interruptQueue s) as [|c rest] eqn:Hq; [assumption|].
  cbv zeta.
  pose proof (P_shift s c rest Hq Hs) as Hs1.
  destruct (c =? 0); [assumption|].
  match goal with
  | |- context [has_toString ?v] => destruct (has_toString v)
  end; cbn [state_of]; setters;
    apply pushToStack_preserves; setters.
Qed.

Lemma tick_preserves s : P s -> P (state_of (tick s)).
Proof.
  intros Hs. unfold tick.
  destruct (halted s); [cbn [state_of]; now apply P_logMessage|].
  destruct (_ && _); [now apply handleInterrupt_preserves|].
  pose proof (fetch_preserves s Hs) as Hf.
  destruct (fetch s) as [s1|s1]; cbn [state_of] in *;
    [now apply decodeAndExecute_preserves | assumption].
Qed.

Lemma load_from_preserves program : forall startAddress index s,
  P s -> P (set_memory (load_from startAddress index program (memory s)) s).
Proof.
  induction program as [|value rest IH]; intros startAddress index s Hs.
  - destruct s. exact Hs.
  - cbn [load_from]. cbv zeta.
    destruct (startAddress + Z.of_nat index <? mem_length (memory s)).
    + apply (IH startAddress (S index)
                (set_memory (mem_set (memory s) (Num (startAddress + Z.of_nat index))
                                     (Num value)) s)).
      now apply P_store.
    + now apply IH.
Qed.

Lemma loadProgram_preserves program startAddress s :
  P s -> P (loadProgram program startAddress s).
Proof.
  intros Hs. unfold loadProgram. cbv zeta. setters.
  now apply load_from_preserves.
Qed.

Lemma requestInterrupt_preserves interrupt s :
  P s -> P (requestInterrupt interrupt s).
Proof.
  intros Hs. unfold requestInterrupt. case_bool_decide; [assumption|].
  cbv zeta. apply P_logMessage. now apply P_enqueue.
Qed.

Lemma reachable_preserves C : P (new_CPU C) -> forall s, reachable C s -> P s.
Proof.
  intros H0 s Hr. induction Hr.
  - assumption.
  - now apply loadProgram_preserves.
  - now apply requestInterrupt_preserves.
  - now apply tick_preserves.
Qed.
End Preservation.

(** ** The stack pointer stays inside the memory *)

Section StackPointer.
Variable C : nat.

Lemma stack_ok_new : (1 <= C)%nat -> stack_ok C (new_CPU C).
Proof.
  intros HC. unfold stack_ok, mem_length. cbn.
  rewrite length_replicate. lia.
Qed.

Lemma stack_ok_registers s r :
  SP r = SP (registers s) -> stack_ok C s -> stack_ok C (set_registers r s).
Proof. unfold stack_ok. cbn. intros ->. trivial. Qed.

Lemma stack_ok_store s k v :
  stack_ok C s -> stack_ok C (set_memory (mem_set (memory s) k v) s).
Proof. unfold stack_ok. cbn. now rewrite mem_set_length. Qed.

Lemma stack_ok_decrement s :
  0 < SP (registers s) -> stack_ok C s -> stack_ok C (set_SP (SP (registers s) - 1) s).
Proof. unfold stack_ok. cbn. lia. Qed.

Lemma stack_ok_increment s :
  SP (registers s) < mem_length (memory s) - 1 ->
  stack_ok C s -> stack_ok C (set_SP (SP (registers s) + 1) s).
Proof. unfold stack_ok. cbn. lia. Qed.

Lemma stack_ok_tick s : stack_ok C s -> stack_ok C (state_of (tick s)).
Proof.
  apply tick_preserves; auto using stack_ok_registers, stack_ok_store,
    stack_ok_decrement, stack_ok_increment.
Qed.

Lemma stack_ok_loadProgram program startAddress s :
  stack_ok C s -> stack_ok C (loadProgram program startAddress s).
Proof.
  apply loadProgram_preserves; auto using stack_ok_registers, stack_ok_store.
Qed.

Lemma stack_ok_requestInterrupt interrupt s :
  stack_ok C s -> stack_ok C (requestInterrupt interrupt s).
Proof. apply requestInterrupt_preserves; auto. Qed.

Lemma stack_ok_reachable s : (1 <= C)%nat -> reachable C s -> stack_ok C s.
Proof.
  intros HC Hr. induction Hr.
  - now apply stack_ok_new.
  - now apply stack_ok_loadProgram.
  - now apply stack_ok_requestInterrupt.
  - now apply stack_ok_tick.
Qed.
End StackPointer.

Lemma pushToStack_SP s v :
  SP (registers (pushToStack v s)) =
  if 0 <? SP (registers s) then SP (registers s) - 1 else SP (registers s).
Proof. unfold pushToStack. cbn. destruct (0 <? SP (registers s)); reflexivity. Qed.

Lemma popFromStack_SP s :
  SP (registers (popFromStack s).2) =
  if SP (registers s) <? mem_length (memory s) - 1
  then SP (registers s) + 1 else SP (registers s).
Proof.
  unfold popFromStack. cbn.
  destruct (SP (registers s) <? mem_length (memory s) - 1); reflexivity.
Qed.

(** C4, as the code has it.  For a capacity [C] of at least one cell, SP
    is C-1 after construction and within [0, C-1]; [loadProgram],
    [requestInterrupt] and [tick] keep the memory length and keep SP in
    that range; a push decrements SP exactly when SP > 0 and a pop
    increments it exactly when SP < C-1. *)
Theorem SP_stays_in_range (C : nat) :
  (1 <= C)%nat ->
  SP (registers (new_CPU C)) = Z.of_nat C - 1 /\
  stack_ok C (new_CPU C) /\
  (forall s, stack_ok C s ->
     (forall program startAddress, stack_ok C (loadProgram program startAddress s)) /\
     (forall interrupt, stack_ok C (requestInterrupt interrupt s)) /\
     stack_ok C (state_of (tick s)) /\
     (forall v, SP (registers (pushToStack v s)) =
                if 0 <? SP (registers s) then SP (registers s) - 1
                else SP (registers s)) /\
     SP (registers (popFromStack s).2) =
       (if SP (registers s) <? Z.of_nat C - 1 then SP (registers s) + 1
        else SP (registers s))) /\
  (forall s, reachable C s -> 0 <= SP (registers s) <= Z.of_nat C - 1).
Proof.
  intros HC. split; [reflexivity|]. split; [now apply stack_ok_new|]. split.
  - intros s Hs. split; [|split; [|split; [|split]]].
    + intros. now apply stack_ok_loadProgram.
    + intros. now apply stack_ok_requestInterrupt.
    + now apply stack_ok_tick.
    + intros. apply pushToStack_SP.
    + rewrite popFromStack_SP. destruct Hs as [-> _]. reflexivity.
  - intros s Hr. now apply stack_ok_reachable.
Qed.

Lemma SP_stays_in_range_witness :
  SP (registers (new_CPU 256)) = 255 /\
  stack_ok 256 (state_of (tick (new_CPU 256))) /\
  0 <= SP (registers (state_of (tick (requestInterrupt Interrupts.TIMER (new_CPU 256)))))
    <= 255.
Proof.
  destruct (SP_stays_in_range 256) as (H0 & Hnew & Hpres & Hreach).
  - lia.
  - split; [exact H0|]. split.
    + apply (Hpres (new_CPU 256) Hnew).
    + apply Hreach. apply reach_tick, reach_requestInterrupt, reach_new.
Defined.

(** C4, counterexample to the claim as stated: a CPU of capacity 0 is
    constructed with SP = -1, outside [0, C-1], and stays there. *)
Lemma SP_capacity_zero_counterexample :
  SP (registers (new_CPU 0)) = -1 /\
  ~ (0 <= SP (registers (new_CPU 0)) <= Z.of_nat 0 - 1) /\
  SP (registers (state_of (tick (new_CPU 0)))) = -1.
Proof. cbn. repeat split; lia. Qed.

(** ** The interrupt queue holds each code at most once *)

Section InterruptQueue.
Lemma queue_ok_shift s c rest :
  interruptQueue s = c :: rest -> queue_ok s -> queue_ok (set_interruptQueue rest s).
Proof.
  unfold queue_ok. cbn. intros -> Hq. apply NoDup_cons in Hq. tauto.
Qed.

Lemma queue_ok_enqueue s c :
  c ∉ interruptQueue s -> queue_ok s ->
  queue_ok (set_interruptQueue (interruptQueue s ++ [c]) s).
Proof.
  unfold queue_ok. cbn. intros Hc Hq. apply NoDup_app. split; [assumption|].
  split; [|apply NoDup_singleton].
  intros x Hx Hx'. apply list_elem_of_singleton in Hx'. now subst.
Qed.

Lemma queue_ok_tick s : queue_ok s -> queue_ok (state_of (tick s)).
Proof. apply tick_preserves; eauto using queue_ok_shift. Qed.

Lemma queue_ok_loadProgram program startAddress s :
  queue_ok s -> queue_ok (loadProgram program startAddress s).
Proof. apply loadProgram_preserves; auto. Qed.

Lemma queue_ok_requestInterrupt interrupt s :
  queue_ok s -> queue_ok (requestInterrupt interrupt s).
Proof. apply requestInterrupt_preserves; auto using queue_ok_enqueue. Qed.

Lemma queue_ok_reachable C s : reachable C s -> queue_ok s.
Proof.
  apply reachable_preserves; eauto using queue_ok_shift, queue_ok_enqueue.
  unfold queue_ok. cbn. apply NoDup_nil_2.
Qed.

Lemma requestInterrupt_present s c :
  c ∈ interruptQueue s -> requestInterrupt c s = s.
Proof. intros Hc. unfold requestInterrupt. now rewrite bool_decide_eq_true_2. Qed.

Lemma requestInterrupt_absent s c :
  c ∉ interruptQueue s ->
  interruptQueue (requestInterrupt c s) = interruptQueue s ++ [c].
Proof. intros Hc. unfold requestInterrupt. now rewrite bool_decide_eq_false_2. Qed.

Lemma requestInterrupt_twice_count s c :
  queue_ok s ->
  count_occ Z.eq_dec (interruptQueue (requestInterrupt c (requestInterrupt c s))) c = 1%nat.
Proof.
  intros Hq. destruct (decide (c ∈ interruptQueue s)) as [Hin|Hnin].
  - rewrite !(requestInterrupt_present s c Hin).
    apply NoDup_ListNoDup in Hq.
    apply (proj1 (NoDup_count_occ' Z.eq_dec _) Hq).
    now apply list_elem_of_In.
  - rewrite requestInterrupt_present.
    + rewrite requestInterrupt_absent by assumption.
      rewrite count_occ_app. cbn. destruct (Z.eq_dec c c); [|congruence].
      rewrite (proj1 (count_occ_not_In Z.eq_dec _ _)); [reflexivity|].
      intros Hin. apply Hnin. now apply list_elem_of_In.
    + rewrite requestInterrupt_absent by assumption.
      apply elem_of_app. right. apply list_elem_of_singleton. reflexivity.
Qed.
End InterruptQueue.

(** C9. Requesting a code that is already queued changes nothing; two
    requests of the same code leave exactly one entry for it; and a queue
    without duplicates stays so under [requestInterrupt], [tick] and
    [loadProgram] (it is empty, hence duplicate-free, at construction). *)
Theorem requestInterrupt_coalesces (s : CPU) (c : Z) :
  queue_ok s ->
  (c ∈ interruptQueue s -> requestInterrupt c s = s) /\
  count_occ Z.eq_dec (interruptQueue (requestInterrupt c (requestInterrupt c s))) c = 1%nat /\
  queue_ok (requestInterrupt c s) /\
  queue_ok (state_of (tick s)) /\
  (forall program startAddress, queue_ok (loadProgram program startAddress s)) /\
  (forall C, queue_ok (new_CPU C)).
Proof.
  intros Hq. split; [apply requestInterrupt_present|].
  split; [now apply requestInterrupt_twice_count|].
  split; [now apply queue_ok_requestInterrupt|].
  split; [now apply queue_ok_tick|].
  split; [intros; now apply queue_ok_loadProgram|].
  intros C. apply (queue_ok_reachable C). constructor.
Qed.

Lemma requestInterrupt_coalesces_witness :
  interruptQueue
    (requestInterrupt Interrupts.TIMER (requestInterrupt Interrupts.TIMER enabled_cpu))
  = [Interrupts.TIMER] /\
  count_occ Z.eq_dec
    (interruptQueue
       (requestInterrupt Interrupts.TIMER (requestInterrupt Interrupts.TIMER enabled_cpu)))
    Interrupts.TIMER = 1%nat.
Proof.
  destruct (requestInterrupt_coalesces enabled_cpu Interrupts.TIMER) as (_ & Hc & _).
  - vm_compute. apply NoDup_nil_2.
  - split; [vm_compute; reflexivity | exact Hc].
Defined.

(** ** Push and pop *)

(** C6. For a byte [v] and a state whose SP is above 0 (and, as in every
    state of a CPU, inside the memory), a push of [v] followed at once by a
    pop returns [v] and leaves SP where it was before the push. *)
Theorem push_pop_inverse (s : CPU) (v : Z) :
  0 <= v <= 255 ->
  0 < SP (registers s) < mem_length (memory s) ->
  (popFromStack (pushToStack (Num v) s)).1 = Num v /\
  SP (registers (popFromStack (pushToStack (Num v) s)).2) = SP (registers s).
Proof.
  intros Hv Hsp. rewrite popFromStack_SP. unfold popFromStack. cbn [fst].
  assert (Hlen : mem_length (memory (pushToStack (Num v) s)) = mem_length (memory s)).
  { unfold pushToStack. cbn -[mem_set].
    destruct (0 <? SP (registers s)); cbn -[mem_set]; apply mem_set_length. }
  rewrite Hlen, pushToStack_SP.
  destruct (Z.ltb_spec 0 (SP (registers s))); [|lia].
  destruct (Z.ltb_spec (SP (registers s) - 1) (mem_length (memory s) - 1)); [|lia].
  replace (SP (registers s) - 1 + 1) with (SP (registers s)) by lia.
  split; [|reflexivity].
  unfold pushToStack. cbn -[mem_get mem_set].
  destruct (Z.ltb_spec 0 (SP (registers s))); [|lia].
  cbn -[mem_get mem_set].
  rewrite mem_get_set_same by lia. cbn. f_equal. apply Z.mod_small. lia.
Qed.

Lemma push_pop_inverse_witness :
  (popFromStack (pushToStack (Num 42) (new_CPU 256))).1 = Num 42 /\
  SP (registers (popFromStack (pushToStack (Num 42) (new_CPU 256))).2) = 255.
Proof.
  apply (push_pop_inverse (new_CPU 256) 42).
  - lia.
  - vm_compute. split; reflexivity.
Defined.

(** ** Memory cells hold bytes *)

Section Bytes.
Lemma bytes_ok_store s k v :
  bytes_ok (memory s) -> bytes_ok (memory (set_memory (mem_set (memory s) k v) s)).
Proof. cbn. apply mem_set_bytes_ok. Qed.

Lemma bytes_ok_new C : bytes_ok (memory (new_CPU C)).
Proof.
  unfold bytes_ok, is_byte. cbn. apply Forall_replicate. lia.
Qed.

Lemma bytes_ok_reachable C s : reachable C s -> bytes_ok (memory s).
Proof.
  apply (reachable_preserves (fun s => bytes_ok (memory s)));
    auto using bytes_ok_store, bytes_ok_new.
Qed.

Lemma load_from_length program : forall startAddress index m,
  mem_length (load_from startAddress index program m) = mem_length m.
Proof.
  induction program as [|value rest IH]; intros startAddress index m; [reflexivity|].
  cbn [load_from]. cbv zeta. rewrite IH.
  destruct (_ <? _); [apply mem_set_length | reflexivity].
Qed.

Lemma mem_set_other m i j v :
  0 <= j -> i <> j ->
  cells (mem_set m (Num i) v) !! Z.to_nat j = cells m !! Z.to_nat j.
Proof.
  intros Hj Hne. unfold mem_set. destruct (Z.leb_spec 0 i); [|reflexivity].
  cbn. apply list_lookup_insert_ne. lia.
Qed.

Lemma mem_set_cell m i v :
  0 <= i < mem_length m ->
  cells (mem_set m (Num i) v) !! Z.to_nat i = Some (to_uint8 v).
Proof.
  intros Hi. unfold mem_length in Hi. unfold mem_set.
  destruct (Z.leb_spec 0 i); [|lia]. cbn.
  apply list_lookup_insert_eq. lia.
Qed.

(** The loop only writes at [startAddress + index] and above. *)
Lemma load_from_below program : forall startAddress index m j,
  0 <= j < startAddress + Z.of_nat index ->
  cells (load_from startAddress index program m) !! Z.to_nat j = cells m !! Z.to_nat j.
Proof.
  induction program as [|value rest IH]; intros startAddress index m j Hj; [reflexivity|].
  cbn [load_from]. cbv zeta. rewrite IH by lia.
  destruct (_ <? _); [|reflexivity].
  apply mem_set_other; lia.
Qed.

Lemma load_from_cell program : forall startAddress index m i value,
  0 <= startAddress + Z.of_nat index ->
  program !! i = Some value ->
  startAddress + Z.of_nat index + Z.of_nat i < mem_length m ->
  cells (load_from startAddress index program m)
    !! Z.to_nat (startAddress + Z.of_nat index + Z.of_nat i)
  = Some (value mod 256).
Proof.
  induction program as [|value0 rest IH];
    intros startAddress index m i value Hs Hi Hlt; [discriminate|].
  cbn [load_from]. cbv zeta. destruct i as [|i].
  - injection Hi as ->. rewrite Z.add_0_r in *.
    rewrite load_from_below by lia.
    destruct (Z.ltb_spec (startAddress + Z.of_nat index) (mem_length m)); [|lia].
    now rewrite mem_set_cell by lia.
  - cbn in Hi.
    replace (startAddress + Z.of_nat index + Z.of_nat (S i))
      with (startAddress + Z.of_nat (S index) + Z.of_nat i) by lia.
    apply IH; [lia | assumption |].
    destruct (_ <? _); rewrite ?mem_set_length; lia.
Qed.

Lemma loadProgram_cell program startAddress s i value :
  0 <= startAddress ->
  program !! i = Some value ->
  startAddress + Z.of_nat i < mem_length (memory s) ->
  cells (memory (loadProgram program startAddress s)) !! Z.to_nat (startAddress + Z.of_nat i)
  = Some (value mod 256).
Proof.
  intros Hs Hi Hlt. unfold loadProgram. cbn.
  replace (startAddress + Z.of_nat i)
    with (startAddress + Z.of_nat 0 + Z.of_nat i) by lia.
  apply load_from_cell; [lia | assumption | lia].
Qed.

Lemma pushToStack_memory s v :
  memory (pushToStack v s) = mem_set (memory s) (Num (SP (registers s))) v.
Proof.
  unfold pushToStack. cbn -[mem_set].
  destruct (0 <? SP (registers s)); reflexivity.
Qed.

Lemma tick_STORE_A_cell s p addr :
  executes s p STORE_A ->
  cells (memory s) !! Z.to_nat (p + 1) = Some addr ->
  0 <= addr < mem_length (memory s) ->
  cells (memory (state_of (tick s))) !! Z.to_nat addr
  = Some (to_uint8 (A (registers s))).
Proof.
  intros (Hh & Hn & Hpc & Hp & Hv & Hmax) Hop Haddr.
  pose proof (cell_address_exact _ _ _ Hp Hv Hmax) as Hex.
  rewrite (tick_running s p) by assumption.
  unfold decodeAndExecute. rewrite (fetched_IR s p STORE_A) by assumption.
  cbn [decode]. change (decode_num STORE_A) with (Some OpSTORE_A). cbn iota.
  unfold fetched. cbn -[mem_get mem_set]. exact_arith.
  rewrite (mem_get_cell _ (p + 1) addr) by (assumption || lia).
  now apply mem_set_cell.
Qed.

Lemma tick_STORE_B_cell s p addr :
  executes s p STORE_B ->
  cells (memory s) !! Z.to_nat (p + 1) = Some addr ->
  0 <= addr < mem_length (memory s) ->
  cells (memory (state_of (tick s))) !! Z.to_nat addr
  = Some (to_uint8 (B (registers s))).
Proof.
  intros (Hh & Hn & Hpc & Hp & Hv & Hmax) Hop Haddr.
  pose proof (cell_address_exact _ _ _ Hp Hv Hmax) as Hex.
  rewrite (tick_running s p) by assumption.
  unfold decodeAndExecute. rewrite (fetched_IR s p STORE_B) by assumption.
  cbn [decode]. change (decode_num STORE_B) with (Some OpSTORE_B). cbn iota.
  unfold fetched. cbn -[mem_get mem_set]. exact_arith.
  rewrite (mem_get_cell _ (p + 1) addr) by (assumption || lia).
  now apply mem_set_cell.
Qed.

Lemma tick_PUSH_A_memory s p :
  executes s p PUSH_A ->
  memory (state_of (tick s)) = mem_set (memory s) (Num (SP (registers s))) (A (registers s)).
Proof.
  intros (Hh & Hn & Hpc & Hp & Hv & Hmax).
  pose proof (cell_address_exact _ _ _ Hp Hv Hmax) as Hex.
  rewrite (tick_running s p) by assumption.
  unfold decodeAndExecute. rewrite (fetched_IR s p PUSH_A) by assumption.
  cbn [decode]. change (decode_num PUSH_A) with (Some OpPUSH_A). cbn iota.
  cbn [state_of]. now rewrite pushToStack_memory.
Qed.

Lemma tick_PUSH_B_memory s p :
  executes s p PUSH_B ->
  memory (state_of (tick s)) = mem_set (memory s) (Num (SP (registers s))) (B (registers s)).
Proof.
  intros (Hh & Hn & Hpc & Hp & Hv & Hmax).
  pose proof (cell_address_exact _ _ _ Hp Hv Hmax) as Hex.
  rewrite (tick_running s p) by assumption.
  unfold decodeAndExecute. rewrite (fetched_IR s p PUSH_B) by assumption.
  cbn [decode]. change (decode_num PUSH_B) with (Some OpPUSH_B). cbn iota.
  cbn [state_of]. now rewrite pushToStack_memory.
Qed.

Lemma handleInterrupt_memory s c rest :
  interruptQueue s = c :: rest -> c <> 0 ->
  memory (state_of (handleInterrupt s))
  = mem_set (memory s) (Num (SP (registers s))) (PC (registers s)).
Proof.
  intros Hq Hc. unfold handleInterrupt. rewrite Hq. cbv zeta.
  destruct (Z.eqb_spec c 0); [contradiction|].
  match goal with
  | |- context [has_toString ?v] => destruct (has_toString v)
  end; cbn [state_of]; cbn -[mem_set pushToStack];
    now rewrite pushToStack_memory.
Qed.
End Bytes.

(** C10. In every state reached through the public contract each memory
    cell holds a value in [0, 255], because every write converts the value
    to an unsigned byte, which for a number is its residue modulo 256:
    STORE_A and STORE_B (cell at the operand address), the push of PUSH_A,
    PUSH_B and of interrupt service (cell at SP) and [loadProgram] (cell at
    startAddress + i), whatever the size of the value written. *)
Theorem memory_cells_hold_bytes (C : nat) (s : CPU) :
  reachable C s ->
  bytes_ok (memory s) /\
  (forall z, to_uint8 (Num z) = z mod 256) /\
  (forall p addr,
     executes s p STORE_A ->
     cells (memory s) !! Z.to_nat (p + 1) = Some addr ->
     0 <= addr < mem_length (memory s) ->
     cells (memory (state_of (tick s))) !! Z.to_nat addr
     = Some (to_uint8 (A (registers s)))) /\
  (forall p addr,
     executes s p STORE_B ->
     cells (memory s) !! Z.to_nat (p + 1) = Some addr ->
     0 <= addr < mem_length (memory s) ->
     cells (memory (state_of (tick s))) !! Z.to_nat addr
     = Some (to_uint8 (B (registers s)))) /\
  (forall p,
     executes s p PUSH_A ->
     0 <= SP (registers s) < mem_length (memory s) ->
     cells (memory (state_of (tick s))) !! Z.to_nat (SP (registers s))
     = Some (to_uint8 (A (registers s)))) /\
  (forall p,
     executes s p PUSH_B ->
     0 <= SP (registers s) < mem_length (memory s) ->
     cells (memory (state_of (tick s))) !! Z.to_nat (SP (registers s))
     = Some (to_uint8 (B (registers s)))) /\
  (forall c rest,
     halted s = false -> IE (registers s) = 1 ->
     interruptQueue s = c :: rest -> c <> 0 ->
     0 <= SP (registers s) < mem_length (memory s) ->
     cells (memory (state_of (tick s))) !! Z.to_nat (SP (registers s))
     = Some (to_uint8 (PC (registers s)))) /\
  (forall program startAddress i value,
     0 <= startAddress ->
     program !! i = Some value ->
     startAddress + Z.of_nat i < mem_length (memory s) ->
     cells (memory (loadProgram program startAddress s))
       !! Z.to_nat (startAddress + Z.of_nat i)
     = Some (value mod 256)).
Proof.
  intros Hr.
  split; [now apply (bytes_ok_reachable C)|].
  split; [reflexivity|].
  split; [apply tick_STORE_A_cell|].
  split; [apply tick_STORE_B_cell|].
  split; [|split; [|split]].
  - intros p Hex Hsp. rewrite (tick_PUSH_A_memory s p Hex).
    now apply mem_set_cell.
  - intros p Hex Hsp. rewrite (tick_PUSH_B_memory s p Hex).
    now apply mem_set_cell.
  - intros c rest Hh Hie Hq Hc Hsp.
    assert (Ht : tick s = handleInterrupt s).
    { unfold tick. rewrite Hh, Hie, Hq. reflexivity. }
    rewrite Ht, (handleInterrupt_memory s c rest Hq Hc).
    now apply mem_set_cell.
  - intros. now apply loadProgram_cell.
Qed.

Lemma memory_cells_hold_bytes_witness :
  bytes_ok (memory store_cpu) /\
  A (registers store_cpu) = Num 300 /\
  cells (memory (state_of (tick store_cpu))) !! Z.to_nat 0x10 = Some 44.
Proof.
  destruct (memory_cells_hold_bytes 256 store_cpu) as (Hb & _ & Hst & _).
  - assert (E : store_cpu
                = state_of (tick (state_of (tick (state_of (tick
                    (loadProgram add_program 0 (new_CPU 256))))))))
      by (vm_compute; reflexivity).
    rewrite E. do 3 apply reach_tick. apply reach_loadProgram. apply reach_new.
  - split; [exact Hb|]. split; [reflexivity|].
    apply (Hst 5 0x10).
    + unfold executes. split; [reflexivity|]. split; [left; vm_compute; discriminate|].
      split; [reflexivity|]. split; [lia|]. split; [reflexivity | vm_compute; discriminate].
    + reflexivity.
    + vm_compute. split; [discriminate | reflexivity].
Defined.

(** ** Interrupt service *)

(** C1, as the code has it.  In a running state with IE = 1 whose queue
    starts with a non-zero code [c], [tick] services the interrupt and does
    no fetch: [c], the earliest request, leaves the queue; IE becomes 0; PC
    is written (as a byte) at SP and SP is decremented unless it is 0; PC
    becomes the cell at address 0 + TIMER = 1, the TIMER entry of the vector
    table, whatever [c] is.  A, B, IR and MAR are untouched. *)
Theorem tick_services_interrupt (s : CPU) (c : Z) (rest : list Z) :
  halted s = false ->
  IE (registers s) = 1 ->
  interruptQueue s = c :: rest ->
  c <> 0 ->
  let s' := state_of (tick s) in
  interruptQueue s' = rest /\
  IE (registers s') = 0 /\
  memory s' = mem_set (memory s) (Num (SP (registers s))) (PC (registers s)) /\
  SP (registers s') =
    (if 0 <? SP (registers s) then SP (registers s) - 1 else SP (registers s)) /\
  PC (registers s') = mem_get (memory s') (Num (INTERRUPT_VECTOR_TABLE_START + Interrupts.TIMER)) /\
  A (registers s') = A (registers s) /\
  B (registers s') = B (registers s) /\
  IR (registers s') = IR (registers s) /\
  MAR (registers s') = MAR (registers s) /\
  halted s' = false.
Proof.
  intros Hh Hie Hq Hc. cbv zeta.
  assert (Ht : tick s = handleInterrupt s).
  { unfold tick. rewrite Hh, Hie, Hq. reflexivity. }
  pose proof (handleInterrupt_memory s c rest Hq Hc) as Hm.
  rewrite Ht. revert Hm. unfold handleInterrupt. rewrite Hq. cbv zeta.
  destruct (Z.eqb_spec c 0); [contradiction|].
  match goal with
  | |- context [has_toString ?v] => destruct (has_toString v)
  end; cbn [state_of]; intros Hm;
    (split; [|split; [|split; [exact Hm|]]]);
    unfold pushToStack; cbn -[mem_get mem_set];
    destruct (0 <? SP (registers s)); cbn -[mem_get mem_set];
    repeat split; try reflexivity; assumption.
Qed.

Lemma tick_services_interrupt_witness :
  let s' := state_of (tick pending_cpu) in
  interruptQueue s' = [] /\
  IE (registers s') = 0 /\
  memory s' = mem_set (memory pending_cpu) (Num 255) (Num 0x29) /\
  SP (registers s') = 254 /\
  PC (registers s') = Num ISR_START /\
  A (registers s') = A (registers pending_cpu) /\
  B (registers s') = B (registers pending_cpu) /\
  IR (registers s') = IR (registers pending_cpu) /\
  MAR (registers s') = MAR (registers pending_cpu) /\
  halted s' = false.
Proof.
  apply (tick_services_interrupt pending_cpu Interrupts.TIMER []).
  - reflexivity.
  - reflexivity.
  - reflexivity.
  - discriminate.
Defined.

(** C1, counterexample to the claim as stated: with code 2 pending, the
    service sets PC to the TIMER entry Memory[1] = 0x80, not to the entry
    of the code, Memory[0 + 2] = 0x90. *)
Lemma vector_lookup_counterexample :
  halted code2_cpu = false /\
  IE (registers code2_cpu) = 1 /\
  interruptQueue code2_cpu = [2] /\
  mem_get (memory (state_of (tick code2_cpu))) (Num (0 + 2)) = Num 0x90 /\
  PC (registers (state_of (tick code2_cpu))) = Num 0x80 /\
  PC (registers (state_of (tick code2_cpu)))
    <> mem_get (memory (state_of (tick code2_cpu))) (Num (0 + 2)).
Proof. vm_compute. repeat split; discriminate. Qed.

(** ** Two-byte instructions *)

(** C2, as the code has it.  A tick that executes a two-byte opcode at
    address [p] returns normally; for LOAD_A_VAL, LOAD_B_VAL, LOAD_A_MEM,
    LOAD_B_MEM, STORE_A and STORE_B it leaves PC = p + 2; for JMP it reads
    the operand at p + 1 and leaves PC equal to that operand. *)
Theorem tick_two_byte_PC (s : CPU) (p op : Z) :
  executes s p op ->
  op ∈ [LOAD_A_VAL; LOAD_B_VAL; LOAD_A_MEM; LOAD_B_MEM; STORE_A; STORE_B; JMP] ->
  exists s',
    tick s = Done s' /\
    MAR (registers s') = Num p /\
    IR (registers s') = Num op /\
    PC (registers s') =
      if op =? JMP then mem_get (memory s) (Num (p + 1)) else Num (p + 2).
Proof.
  intros (Hh & Hn & Hpc & Hp & Hv & Hmax) Hop.
  pose proof (cell_address_exact _ _ _ Hp Hv Hmax) as Hex.
  rewrite (tick_running s p) by assumption.
  unfold decodeAndExecute. rewrite (fetched_IR s p op) by assumption.
  assert (Hir : mem_get (memory s) (Num p) = Num op) by now apply mem_get_cell.
  replace (p + 2) with (p + 1 + 1) by lia.
  repeat (apply elem_of_cons in Hop as [->|Hop]);
    [ .. | now apply elem_of_nil in Hop ];
    (eexists; split; [reflexivity|]);
    unfold fetched; cbn -[mem_get mem_set]; rewrite Hir; exact_arith;
    repeat split; reflexivity.
Qed.

Lemma tick_two_byte_PC_witness :
  exists s',
    tick createAndLoadCPU = Done s' /\
    MAR (registers s') = Num MAIN_PROGRAM_START /\
    IR (registers s') = Num LOAD_A_VAL /\
    PC (registers s') = Num (MAIN_PROGRAM_START + 2).
Proof.
  apply (tick_two_byte_PC createAndLoadCPU MAIN_PROGRAM_START LOAD_A_VAL).
  - unfold executes. split; [reflexivity|]. split; [right; reflexivity|].
    split; [reflexivity|]. split; [vm_compute; discriminate|]. split; [reflexivity | vm_compute; discriminate].
  - apply list_elem_of_here.
Defined.

(** C2, counterexample to the claim as stated: the JMP at address 0x37,
    with operand 0x29, leaves PC = 0x29 and not 0x37 + 2. *)
Lemma JMP_counterexample :
  executes jmp_cpu 0x37 JMP /\
  mem_get (memory jmp_cpu) (Num (0x37 + 1)) = Num 0x29 /\
  PC (registers (state_of (tick jmp_cpu))) = Num 0x29 /\
  PC (registers (state_of (tick jmp_cpu))) <> Num (0x37 + 2).
Proof.
  split.
  - unfold executes. split; [reflexivity|]. split; [right; reflexivity|].
    split; [reflexivity|]. split; [lia|]. split; [reflexivity | vm_compute; discriminate].
  - vm_compute. repeat split; discriminate.
Qed.


(** * Further properties of the CPU class *)

(** ** What [decodeAndExecute], [fetch] and [handleInterrupt] leave alone *)

(** Case analysis on the tests of the code, the comparisons first. *)
Ltac split_ifs :=
  repeat match goal with
         | |- context [if ?a <? ?b then _ else _] => destruct (a <? b)
         | |- context [if ?a =? ?b then _ else _] => destruct (a =? b)
         end;
  cbn -[mem_get mem_set];
  repeat match goal with
         | |- context [if has_toString ?v then _ else _] => destruct (has_toString v)
         end;
  cbn -[mem_get mem_set].

Ltac exec_cases s :=
  unfold decodeAndExecute, popFromStack, pushToStack;
  destruct (decode (IR (registers s))) as [[]|];
  cbn -[mem_get mem_set];
  split_ifs.

Lemma decode_num_code z op : decode_num z = Some op -> z = opcode_code op.
Proof.
  unfold decode_num.
  repeat match goal with
         | |- context [?a =? ?b] => destruct (Z.eqb_spec a b) as [->|_]
         end; intros H; try discriminate; injection H as <-; reflexivity.
Qed.

Lemma decode_code ir op : decode ir = Some op -> ir = Num (opcode_code op).
Proof.
  destruct ir as [z| | | |]; try discriminate. cbn [decode].
  intros H. now rewrite (decode_num_code z op H).
Qed.

Lemma decodeAndExecute_frame s :
  IR (registers (state_of (decodeAndExecute s))) = IR (registers s) /\
  MAR (registers (state_of (decodeAndExecute s))) = MAR (registers s) /\
  MDR (registers (state_of (decodeAndExecute s))) = MDR (registers s) /\
  interruptQueue (state_of (decodeAndExecute s)) = interruptQueue s.
Proof. exec_cases s; repeat split. Qed.

Lemma decodeAndExecute_halted s :
  halted (state_of (decodeAndExecute s)) =
  match decode (IR (registers s)) with
  | Some OpHALT => true
  | _ => halted s
  end.
Proof. exec_cases s; reflexivity. Qed.

Lemma decodeAndExecute_IE s :
  IE (registers (state_of (decodeAndExecute s))) =
  match decode (IR (registers s)) with
  | Some OpENABLE_INTERRUPTS | Some OpIRET => 1
  | _ => IE (registers s)
  end.
Proof. exec_cases s; reflexivity. Qed.

Lemma fetch_frame s :
  A (registers (state_of (fetch s))) = A (registers s) /\
  B (registers (state_of (fetch s))) = B (registers s) /\
  SP (registers (state_of (fetch s))) = SP (registers s) /\
  IE (registers (state_of (fetch s))) = IE (registers s) /\
  MDR (registers (state_of (fetch s))) = MDR (registers s) /\
  memory (state_of (fetch s)) = memory s /\
  interruptQueue (state_of (fetch s)) = interruptQueue s /\
  halted (state_of (fetch s)) = halted s /\
  IR (registers (state_of (fetch s))) = mem_get (memory s) (PC (registers s)) /\
  MAR (registers (state_of (fetch s))) = PC (registers s) /\
  PC (registers (state_of (fetch s))) = js_incr (PC (registers s)) /\
  raised (fetch s) = negb (has_toString (PC (registers s))).
Proof.
  unfold fetch. cbn -[mem_get].
  destruct (has_toString (PC (registers s))); cbn -[mem_get]; repeat split.
Qed.

Lemma handleInterrupt_halted s :
  halted (state_of (handleInterrupt s)) = halted s.
Proof.
  unfold handleInterrupt, pushToStack.
  destruct (interruptQueue s) as [|c rest]; [reflexivity|].
  cbn -[mem_get mem_set]. split_ifs; reflexivity.
Qed.

Lemma no_service_cond s :
  (IE (registers s) =? 1) && (0 <? Z.of_nat (length (interruptQueue s))) = false
  <-> no_service s.
Proof.
  unfold no_service. split.
  - intros H. apply andb_false_iff in H as [H|H].
    + left. now apply Z.eqb_neq.
    + right. destruct (interruptQueue s); [reflexivity|]. cbn in H. discriminate.
  - intros [H|H].
    + apply andb_false_iff. left. now apply Z.eqb_neq.
    + rewrite H. cbn. apply andb_false_r.
Qed.

Lemma service_cond s c rest :
  IE (registers s) = 1 -> interruptQueue s = c :: rest ->
  (IE (registers s) =? 1) && (0 <? Z.of_nat (length (interruptQueue s))) = true.
Proof. intros -> ->. reflexivity. Qed.

Lemma tick_service s c rest :
  halted s = false -> IE (registers s) = 1 -> interruptQueue s = c :: rest ->
  tick s = handleInterrupt s.
Proof.
  intros Hh Hie Hq. unfold tick. now rewrite Hh, (service_cond s c rest Hie Hq).
Qed.

(** The three ways a tick can go. *)
Lemma tick_paths s :
  (halted s = true /\ tick s = Done (set_logMessage LogHaltState s)) \/
  (halted s = false /\ IE (registers s) = 1 /\
   (exists c rest, interruptQueue s = c :: rest) /\ tick s = handleInterrupt s) \/
  (halted s = false /\ no_service s /\
   tick s = match fetch s with
            | Done s1 => decodeAndExecute s1
            | Threw s1 => Threw s1
            end).
Proof.
  unfold tick. destruct (halted s); [left; auto|]. right.
  destruct (_ && _) eqn:Hc.
  - left. apply andb_true_iff in Hc as [Hie Hq]. apply Z.eqb_eq in Hie.
    repeat split; trivial.
    destruct (interruptQueue s) as [|c rest]; [discriminate|]. eauto.
  - right. apply no_service_cond in Hc. auto.
Qed.

(** ** The diagnostic is write-only *)

Lemma tick_set_logMessage (s : CPU) (l : log) :
  raised (tick (set_logMessage l s)) = raised (tick s) /\
  same_machine (state_of (tick s)) (state_of (tick (set_logMessage l s))).
Proof.
  unfold same_machine, tick. cbn -[mem_get mem_set].
  destruct (halted s); [cbn; auto|].
  destruct (_ && _).
  - unfold handleInterrupt, pushToStack. cbn -[mem_get mem_set].
    destruct (interruptQueue s) as [|c rest]; [cbn; auto|].
    cbn -[mem_get mem_set]. split_ifs; auto.
  - unfold fetch. cbn -[mem_get mem_set].
    destruct (has_toString (PC (registers s))); [|cbn; auto].
    unfold decodeAndExecute, popFromStack, pushToStack. cbn -[mem_get mem_set].
    destruct (decode (mem_get (memory s) (PC (registers s)))) as [[]|];
      cbn -[mem_get mem_set]; split_ifs; auto.
Qed.

(** X1. [logMessage] is never read back: a tick started from the same
    machine with another diagnostic raises in the same cases and leaves the
    same registers, memory, interrupt queue and halted flag. *)
Theorem tick_ignores_logMessage (s : CPU) (l : log) :
  raised (tick (set_logMessage l s)) = raised (tick s) /\
  same_machine (state_of (tick s)) (state_of (tick (set_logMessage l s))).
Proof. apply tick_set_logMessage. Qed.

(** ** Halting *)

(** X2. A running CPU becomes halted by a tick exactly when that tick
    fetches the HALT opcode: no interrupt is serviced, PC is not
    [undefined] (else the fetch raises before executing) and the byte read
    at PC is HALT. *)
Theorem tick_halts_iff_HALT (s : CPU) :
  halted s = false ->
  (halted (state_of (tick s)) = true <->
   no_service s /\ has_toString (PC (registers s)) = true /\
   mem_get (memory s) (PC (registers s)) = Num HALT).
Proof.
  intros Hh.
  pose proof (fetch_frame s) as (_ & _ & _ & _ & _ & _ & _ & Hfh & Hir & _ & _ & Hr).
  destruct (tick_paths s) as [[Hh' _] | [(_ & Hie & (c & rest & Hq) & Ht) | (_ & Hn & Ht)]].
  - congruence.
  - rewrite Ht, handleInterrupt_halted, Hh. split; [discriminate|].
    intros ([Hn|Hn] & _); [contradiction | congruence].
  - rewrite Ht. destruct (fetch s) as [s1|s1]; cbn [state_of raised] in *.
    + rewrite decodeAndExecute_halted, Hir, Hfh, Hh.
      symmetry in Hr. apply negb_false_iff in Hr. split.
      * destruct (decode _) as [[]|] eqn:Hd; try discriminate.
        intros _. apply decode_code in Hd. auto.
      * intros (_ & _ & ->). reflexivity.
    + rewrite Hfh, Hh. symmetry in Hr. apply negb_true_iff in Hr.
      split; [discriminate|]. intros (_ & Ht' & _). congruence.
Qed.

Lemma tick_halts_iff_HALT_witness :
  halted (state_of (tick halt_next_cpu)) = true.
Proof.
  apply (tick_halts_iff_HALT halt_next_cpu).
  - reflexivity.
  - split; [right; reflexivity|]. split; reflexivity.
Defined.

(** ** The interrupt queue and the enable flag *)

(** X3. A tick removes at most the head of the interrupt queue and never
    adds to it: the queue is untouched when the CPU is halted, when IE is
    not 1 or when the queue is empty, and loses exactly its earliest entry
    otherwise, whatever that entry is. *)
Theorem tick_queue (s : CPU) :
  (halted s = true \/ no_service s ->
   interruptQueue (state_of (tick s)) = interruptQueue s) /\
  (forall c rest,
     halted s = false -> IE (registers s) = 1 -> interruptQueue s = c :: rest ->
     interruptQueue (state_of (tick s)) = rest).
Proof.
  split.
  - intros Hc.
    destruct (tick_paths s) as [[_ ->] | [(Hh & Hie & (c & rest & Hq) & Ht) | (_ & Hn & Ht)]].
    + reflexivity.
    + destruct Hc as [Hc | [Hc | Hc]]; congruence.
    + rewrite Ht.
      pose proof (fetch_frame s) as (_ & _ & _ & _ & _ & _ & Hfq & _).
      destruct (fetch s) as [s1|s1]; cbn [state_of] in *; [|assumption].
      destruct (decodeAndExecute_frame s1) as (_ & _ & _ & ->). assumption.
  - intros c rest Hh Hie Hq. unfold tick.
    rewrite Hh, (service_cond s c rest Hie Hq).
    unfold handleInterrupt, pushToStack. rewrite Hq. cbn -[mem_get mem_set].
    split_ifs; reflexivity.
Qed.

Lemma tick_queue_witness :
  interruptQueue (state_of (tick (requestInterrupt Interrupts.TIMER (new_CPU 256))))
  = [Interrupts.TIMER].
Proof.
  apply (proj1 (tick_queue (requestInterrupt Interrupts.TIMER (new_CPU 256)))).
  right. left. vm_compute. discriminate.
Defined.

(** X4. A queued interrupt code 0 is falsy for the guard of
    [handleInterrupt]: with IE = 1 the tick only removes it from the queue.
    No fetch happens, IE stays 1, nothing is pushed and PC, the other
    registers, the memory and the diagnostic are as before. *)
Theorem tick_drops_code_zero (s : CPU) (rest : list Z) :
  halted s = false -> IE (registers s) = 1 -> interruptQueue s = 0 :: rest ->
  tick s = Done (set_interruptQueue rest s).
Proof.
  intros Hh Hie Hq. unfold tick.
  rewrite Hh, (service_cond s 0 rest Hie Hq).
  now apply handleInterrupt_code_zero.
Qed.

Lemma tick_drops_code_zero_witness :
  tick (requestInterrupt 0 enabled_cpu)
  = Done (set_interruptQueue [] (requestInterrupt 0 enabled_cpu)).
Proof.
  apply (tick_drops_code_zero (requestInterrupt 0 enabled_cpu) []); reflexivity.
Defined.

(** X5. IE goes from a value other than 1 to 1 only through a fetch-execute
    tick whose opcode is ENABLE_INTERRUPTS or IRET. *)
Theorem IE_enabled_only_by_EI_or_IRET (s : CPU) :
  IE (registers s) <> 1 ->
  IE (registers (state_of (tick s))) = 1 ->
  halted s = false /\
  (IR (registers (state_of (tick s))) = Num ENABLE_INTERRUPTS \/
   IR (registers (state_of (tick s))) = Num IRET).
Proof.
  intros Hie H1.
  destruct (tick_paths s) as [[_ Ht] | [(Hh & Hie' & _) | (Hh & Hn & Ht)]].
  - rewrite Ht in H1. cbn in H1. contradiction.
  - contradiction.
  - split; [assumption|]. rewrite Ht in *.
    pose proof (fetch_frame s) as (_ & _ & _ & Hfi & _).
    destruct (fetch s) as [s1|s1]; cbn [state_of] in *; [|congruence].
    rewrite decodeAndExecute_IE in H1.
    destruct (decodeAndExecute_frame s1) as (-> & _).
    destruct (decode (IR (registers s1))) as [[]|] eqn:Hd;
      try congruence; apply decode_code in Hd; auto.
Qed.

Lemma IE_enabled_only_by_EI_or_IRET_witness :
  halted isr_cpu = false /\
  (IR (registers (state_of (tick isr_cpu))) = Num ENABLE_INTERRUPTS \/
   IR (registers (state_of (tick isr_cpu))) = Num IRET).
Proof.
  apply (IE_enabled_only_by_EI_or_IRET isr_cpu).
  - vm_compute. discriminate.
  - vm_compute. reflexivity.
Defined.

(** X6. IE goes from 1 to another value only by servicing an interrupt:
    the CPU is running, the head of the queue is a non-zero code, that code
    is dequeued and IE becomes 0. *)
Theorem IE_cleared_only_by_service (s : CPU) :
  IE (registers s) = 1 ->
  IE (registers (state_of (tick s))) <> 1 ->
  halted s = false /\
  IE (registers (state_of (tick s))) = 0 /\
  exists c, c <> 0 /\ interruptQueue s = c :: interruptQueue (state_of (tick s)).
Proof.
  intros Hie H1.
  destruct (tick_paths s) as [[_ Ht] | [(Hh & _ & (c & rest & Hq) & Ht) | (Hh & Hn & Ht)]].
  - rewrite Ht in H1. cbn in H1. contradiction.
  - split; [assumption|]. rewrite Ht in *. revert H1.
    unfold handleInterrupt, pushToStack. rewrite Hq. cbn -[mem_get mem_set].
    destruct (Z.eqb_spec c 0) as [->|Hc]; [cbn; contradiction|].
    split_ifs; intros _; (split; [reflexivity|]); exists c; auto.
  - exfalso. apply H1. rewrite Ht.
    pose proof (fetch_frame s) as (_ & _ & _ & Hfi & _).
    destruct (fetch s) as [s1|s1]; cbn [state_of] in *; [|congruence].
    rewrite decodeAndExecute_IE.
    destruct (decode (IR (registers s1))) as [[]|]; congruence.
Qed.

Lemma IE_cleared_only_by_service_witness :
  halted pending_cpu = false /\
  IE (registers (state_of (tick pending_cpu))) = 0 /\
  exists c, c <> 0 /\
            interruptQueue pending_cpu = c :: interruptQueue (state_of (tick pending_cpu)).
Proof.
  apply (IE_cleared_only_by_service pending_cpu).
  - reflexivity.
  - vm_compute. discriminate.
Defined.

(** ** Loading an image *)

Lemma load_from_outside program : forall startAddress index m j,
  0 <= j ->
  j < startAddress + Z.of_nat index \/
  startAddress + Z.of_nat index + Z.of_nat (length program) <= j ->
  cells (load_from startAddress index program m) !! Z.to_nat j = cells m !! Z.to_nat j.
Proof.
  induction program as [|value rest IH]; intros startAddress index m j Hj Hout;
    [reflexivity|].
  cbn [load_from]. cbv zeta. cbn [length] in Hout.
  rewrite IH by lia.
  destruct (_ <? _); [|reflexivity].
  apply mem_set_other; lia.
Qed.

Lemma load_from_prop_undefined program : forall startAddress index m,
  prop_undefined (load_from startAddress index program m) = prop_undefined m.
Proof.
  induction program as [|value rest IH]; intros startAddress index m; [reflexivity|].
  cbn [load_from]. cbv zeta. rewrite IH.
  destruct (_ <? _); [|reflexivity].
  unfold mem_set. destruct (0 <=? _); reflexivity.
Qed.

(** X7. [loadProgram] overwrites nothing outside the window it is given:
    cells below [startAddress] and from [startAddress + program.length] on
    keep their values, the memory keeps its length (bytes that do not fit
    are dropped, the array never grows), and of the registers only PC
    changes, to [startAddress]; the queue and the halted flag are kept. *)
Theorem loadProgram_frame (program : list Z) (startAddress : Z) (s : CPU) :
  (forall j, 0 <= j ->
     j < startAddress \/ startAddress + Z.of_nat (length program) <= j ->
     cells (memory (loadProgram program startAddress s)) !! Z.to_nat j
     = cells (memory s) !! Z.to_nat j) /\
  mem_length (memory (loadProgram program startAddress s)) = mem_length (memory s) /\
  PC (registers (loadProgram program startAddress s)) = Num startAddress /\
  A (registers (loadProgram program startAddress s)) = A (registers s) /\
  B (registers (loadProgram program startAddress s)) = B (registers s) /\
  SP (registers (loadProgram program startAddress s)) = SP (registers s) /\
  IE (registers (loadProgram program startAddress s)) = IE (registers s) /\
  interruptQueue (loadProgram program startAddress s) = interruptQueue s /\
  halted (loadProgram program startAddress s) = halted s.
Proof.
  split; [|split; [|repeat split]].
  - intros j Hj Hout. unfold loadProgram. cbn.
    apply load_from_outside; [assumption | lia].
  - unfold loadProgram. cbn. apply load_from_length.
Qed.

(** X8. Loading a non-empty image at an address inside the memory and
    ticking fetches the image's first byte: after the tick IR is that byte
    reduced modulo 256 and MAR is the load address. *)
Theorem loadProgram_then_tick (value : Z) (rest : list Z) (startAddress : Z) (s : CPU) :
  halted s = false -> no_service s ->
  0 <= startAddress < mem_length (memory s) ->
  let s' := state_of (tick (loadProgram (value :: rest) startAddress s)) in
  IR (registers s') = Num (value mod 256) /\ MAR (registers s') = Num startAddress.
Proof.
  intros Hh Hn Hs. cbv zeta.
  set (s0 := loadProgram (value :: rest) startAddress s).
  assert (Hcell : cells (memory s0) !! Z.to_nat startAddress = Some (value mod 256)).
  { pose proof (loadProgram_cell (value :: rest) startAddress s 0 value) as H.
    cbn [Z.of_nat] in H. rewrite Z.add_0_r in H.
    apply H; [lia | reflexivity | lia]. }
  rewrite (tick_running s0 startAddress); trivial.
  destruct (decodeAndExecute_frame (fetched startAddress s0)) as (-> & -> & _).
  split; [|reflexivity].
  now apply fetched_IR.
Qed.

Lemma loadProgram_then_tick_witness :
  let s' := state_of (tick (loadProgram [0x142; 7] 0x30 (new_CPU 256))) in
  IR (registers s') = Num 0x42 /\ MAR (registers s') = Num 0x30.
Proof.
  apply (loadProgram_then_tick 0x142 [7] 0x30 (new_CPU 256)).
  - reflexivity.
  - right. reflexivity.
  - vm_compute. split; [discriminate | reflexivity].
Defined.

(** The memory of a CPU that could be constructed stays a typed array of
    a valid length in every state the public operations produce: the last
    condition of [executes] is an invariant. *)
Lemma array_length_reachable (C : nat) (s : CPU) :
  Z.of_nat C <= MAX_ARRAY_LENGTH ->
  reachable C s -> mem_length (memory s) <= MAX_ARRAY_LENGTH.
Proof.
  intros HC.
  apply (reachable_preserves (fun s => mem_length (memory s) <= MAX_ARRAY_LENGTH)); auto.
  - intros s0 k v H. cbn. now rewrite mem_set_length.
  - unfold mem_length. cbn. now rewrite length_replicate.
Qed.

(** X9. The memory never changes size: every state reached from a CPU of
    capacity [C] has exactly [C] cells, for every [C] including 0. *)
Theorem capacity_is_fixed (C : nat) (s : CPU) :
  reachable C s -> mem_length (memory s) = Z.of_nat C.
Proof.
  apply (reachable_preserves (fun s => mem_length (memory s) = Z.of_nat C)); auto.
  - intros s0 k v H. cbn. now rewrite mem_set_length.
  - unfold mem_length. cbn. now rewrite length_replicate.
Qed.

Lemma capacity_is_fixed_witness :
  mem_length (memory (state_of (tick (loadProgram [STORE_A; 0xff] 0 (new_CPU 4))))) = 4.
Proof.
  apply (capacity_is_fixed 4).
  apply reach_tick, reach_loadProgram, reach_new.
Defined.

(** ** The stack at its bounds *)

(** X10. At SP = 0 a push stores its value in cell 0 and leaves SP at 0;
    with at least two cells, the pop that follows moves SP to 1 and returns
    cell 1, so the value just pushed is not the one popped. *)
Theorem push_at_zero_then_pop (s : CPU) (v : jsval) :
  SP (registers s) = 0 -> 2 <= mem_length (memory s) ->
  SP (registers (pushToStack v s)) = 0 /\
  mem_get (memory (pushToStack v s)) (Num 0) = Num (to_uint8 v) /\
  (popFromStack (pushToStack v s)).1 = mem_get (memory s) (Num 1) /\
  SP (registers (popFromStack (pushToStack v s)).2) = 1.
Proof.
  intros Hsp Hlen.
  assert (Hp : pushToStack v s = set_memory (mem_set (memory s) (Num 0) v) s).
  { unfold pushToStack. cbn -[mem_set]. rewrite Hsp. reflexivity. }
  rewrite Hp. cbn -[mem_get mem_set]. rewrite Hsp.
  split; [reflexivity|]. split; [apply mem_get_set_same; lia|].
  unfold popFromStack. cbn -[mem_get mem_set]. rewrite ?Hsp, mem_set_length.
  destruct (Z.ltb_spec 0 (mem_length (memory s) - 1)); [|lia].
  cbn -[mem_get mem_set]. split; [|reflexivity].
  unfold mem_get. cbn [Z.leb Z.compare Z.add].
  change (Z.to_nat (0 + 1)) with (Z.to_nat 1).
  now rewrite (mem_set_other (memory s) 0 1 v) by lia.
Qed.

Lemma push_at_zero_then_pop_witness :
  let s := set_SP 0 (loadProgram [7; 9] 0 (new_CPU 256)) in
  SP (registers (pushToStack (Num 5) s)) = 0 /\
  mem_get (memory (pushToStack (Num 5) s)) (Num 0) = Num 5 /\
  (popFromStack (pushToStack (Num 5) s)).1 = Num 9 /\
  SP (registers (popFromStack (pushToStack (Num 5) s)).2) = 1.
Proof.
  apply (push_at_zero_then_pop (set_SP 0 (loadProgram [7; 9] 0 (new_CPU 256))) (Num 5)).
  - reflexivity.
  - vm_compute. discriminate.
Defined.

(** A pop with SP at the last cell (the empty stack) does not move
    SP and returns that last cell; the CPU object is left as it was, so
    every further pop returns the same value. *)
Lemma pop_at_top (s : CPU) :
  SP (registers s) = mem_length (memory s) - 1 ->
  popFromStack s = (mem_get (memory s) (Num (mem_length (memory s) - 1)), s).
Proof.
  intros Hsp. unfold popFromStack. rewrite Hsp.
  destruct (Z.ltb_spec (mem_length (memory s) - 1) (mem_length (memory s) - 1)); [lia|].
  now rewrite Hsp.
Qed.

Lemma pop_at_top_witness :
  popFromStack (new_CPU 256) = (Num 0, new_CPU 256).
Proof. apply (pop_at_top (new_CPU 256)). reflexivity. Defined.

(** X11. Pop and push are inverse the other way round too: when SP is
    below the last cell, popping and pushing the popped value back restores
    the whole CPU object, memory included, provided the cells are bytes. *)
Theorem pop_push_inverse (s : CPU) :
  bytes_ok (memory s) ->
  0 <= SP (registers s) < mem_length (memory s) - 1 ->
  pushToStack (popFromStack s).1 (popFromStack s).2 = s.
Proof.
  intros Hb Hsp. unfold popFromStack.
  destruct (Z.ltb_spec (SP (registers s)) (mem_length (memory s) - 1)); [|lia].
  cbn [fst snd]. destruct s as [m r h q l]. destruct r as [a b ir mar mdr pc sp ie].
  cbn -[mem_get mem_set] in *.
  destruct (mem_get_in_range m (sp + 1)) as [x Hx]; [lia|].
  rewrite (mem_get_cell m (sp + 1) x) by (assumption || lia).
  unfold pushToStack. cbn -[mem_set].
  destruct (Z.ltb_spec 0 (sp + 1)); [|lia].
  assert (Hm : mem_set m (Num (sp + 1)) (Num x) = m).
  { unfold mem_set. destruct (Z.leb_spec 0 (sp + 1)); [|lia].
    destruct m as [cs pu]. cbn in *. f_equal.
    apply list_insert_id. rewrite Hx. f_equal. symmetry.
    apply Z.mod_small. unfold bytes_ok in Hb. cbn in Hb.
    rewrite Forall_forall in Hb. apply (Hb x).
    apply list_elem_of_lookup. eauto. }
  unfold set_SP, set_registers, set_memory. cbn -[mem_set].
  rewrite Hm. do 2 f_equal. lia.
Qed.

Lemma pop_push_inverse_witness :
  pushToStack (popFromStack isr_cpu).1 (popFromStack isr_cpu).2 = isr_cpu.
Proof.
  apply (pop_push_inverse isr_cpu).
  - apply (bytes_ok_reachable 256).
    assert (E : isr_cpu
                = state_of (tick (requestInterrupt Interrupts.TIMER (state_of (tick
                    (loadProgram [ENABLE_INTERRUPTS; NOOP; JMP; 0x01] 0x02
                       (loadProgram [IRET] 0x50
                          (loadProgram [0x00; 0x50] INTERRUPT_VECTOR_TABLE_START
                             (new_CPU 256)))))))))
      by (vm_compute; reflexivity).
    rewrite E. apply reach_tick, reach_requestInterrupt, reach_tick.
    do 3 apply reach_loadProgram. apply reach_new.
  - vm_compute. split; [discriminate | reflexivity].
Defined.

(** ** Bursts of interrupt requests *)

Lemma requestInterrupt_queue c s :
  interruptQueue (requestInterrupt c s)
  = if decide (c ∈ interruptQueue s) then interruptQueue s
    else interruptQueue s ++ [c].
Proof.
  destruct (decide (c ∈ interruptQueue s)) as [Hin|Hnin].
  - now rewrite requestInterrupt_present.
  - now apply requestInterrupt_absent.
Qed.

Lemma elem_of_first_occurrences l c : c ∈ first_occurrences l <-> c ∈ l.
Proof.
  unfold first_occurrences.
  rewrite elem_of_reverse, elem_of_remove_dups, elem_of_reverse. reflexivity.
Qed.

Lemma first_occurrences_snoc l c :
  first_occurrences (l ++ [c])
  = if decide (c ∈ first_occurrences l) then first_occurrences l
    else first_occurrences l ++ [c].
Proof.
  pose proof (elem_of_first_occurrences l c) as Hiff.
  unfold first_occurrences in *. rewrite reverse_app.
  change (reverse [c]) with [c]. cbn [app remove_dups].
  destruct (decide_rel elem_of c (reverse l)) as [Hin|Hnin].
  - rewrite decide_True; [reflexivity|].
    apply Hiff. exact (proj1 (elem_of_reverse c l) Hin).
  - rewrite decide_False; [now rewrite reverse_cons|].
    intros H. apply Hnin. apply (proj2 (elem_of_reverse c l)). now apply Hiff.
Qed.

Lemma remove_dups_NoDup (l : list Z) : NoDup l -> remove_dups l = l.
Proof.
  induction 1 as [|x l Hx Hl IH]; [reflexivity|].
  cbn [remove_dups]. destruct (decide_rel elem_of x l); [contradiction|].
  now rewrite IH.
Qed.

Lemma first_occurrences_NoDup l : NoDup l -> first_occurrences l = l.
Proof.
  intros H. unfold first_occurrences.
  rewrite remove_dups_NoDup by now rewrite reverse_Permutation.
  apply reverse_involutive.
Qed.

(** X12. A burst of requests is coalesced in arrival order: after any
    sequence of [requestInterrupt] calls the queue holds the codes that
    were queued before, followed by the new codes in the order of their
    first request, each once. *)
Theorem requestInterrupts_first_occurrences (interrupts : list Z) (s : CPU) :
  NoDup (interruptQueue s) ->
  interruptQueue (requestInterrupts interrupts s)
  = first_occurrences (interruptQueue s ++ interrupts).
Proof.
  intros Hq. unfold requestInterrupts.
  induction interrupts as [|c cs IH] using rev_ind.
  - cbn. rewrite app_nil_r. symmetry. now apply first_occurrences_NoDup.
  - rewrite foldl_app. cbn [foldl].
    rewrite requestInterrupt_queue, IH, app_assoc, first_occurrences_snoc.
    reflexivity.
Qed.

Lemma requestInterrupts_first_occurrences_witness :
  interruptQueue (requestInterrupts [3; 1; 3; 2; 1] (new_CPU 256)) = [3; 1; 2].
Proof.
  apply (requestInterrupts_first_occurrences [3; 1; 3; 2; 1] (new_CPU 256)).
  apply NoDup_nil_2.
Defined.

(** ** Instructions in sequence *)

Lemma mem_get_set_other m i j v :
  i <> j -> mem_get (mem_set m (Num i) v) (Num j) = mem_get m (Num j).
Proof.
  intros Hne. unfold mem_get. destruct (Z.leb_spec 0 j); [|reflexivity].
  now rewrite mem_set_other by lia.
Qed.

Lemma mem_get_out_of_range m p : mem_length m <= p -> mem_get m (Num p) = Undefined.
Proof.
  intros Hp. unfold mem_length in Hp. unfold mem_get.
  destruct (Z.leb_spec 0 p); [|reflexivity].
  rewrite lookup_ge_None_2 by lia. reflexivity.
Qed.

(** A fetch-execute tick on a CPU object written out field by field. *)
Lemma tick_exec_incr m a b ir mar mdr p sp ie q l :
  ie <> 1 \/ q = [] ->
  tick (mkCPU m (mkRegisters a b ir mar mdr (Num p) sp ie) false q l)
  = decodeAndExecute
      (mkCPU m (mkRegisters a b (mem_get m (Num p)) (Num p) mdr (js_incr (Num p)) sp ie)
             false q (LogFetch (mem_get m (Num p)) (Num p))).
Proof.
  intros Hn.
  rewrite (tick_running _ p); [reflexivity | reflexivity | exact Hn | reflexivity].
Qed.

(** The same at an address where the increment is exact. *)
Lemma tick_exec m a b ir mar mdr p sp ie q l :
  ie <> 1 \/ q = [] ->
  - MAX_EXACT <= p + 1 <= MAX_EXACT ->
  tick (mkCPU m (mkRegisters a b ir mar mdr (Num p) sp ie) false q l)
  = decodeAndExecute
      (mkCPU m (mkRegisters a b (mem_get m (Num p)) (Num p) mdr (Num (p + 1)) sp ie)
             false q (LogFetch (mem_get m (Num p)) (Num p))).
Proof.
  intros Hn Hp. rewrite tick_exec_incr by assumption.
  now rewrite js_incr_exact.
Qed.


(** The side conditions of [tick_exec]. *)
Ltac exec_side := assumption || (unfold MAX_EXACT in *; lia).

(** A CPU object written out field by field. *)
Ltac explicit s :=
  destruct s as [?m [?a ?b ?ir ?mar ?mdr ?pc ?sp ?ie] ?h ?q ?l];
  cbn [memory registers halted interruptQueue logMessage
       A B IR MAR MDR PC SP IE] in *.

(** Reduce the state under the next [tick] to a record. *)
Ltac simp_state :=
  cbn -[mem_get mem_set tick];
  unfold pushToStack, popFromStack;
  cbn -[mem_get mem_set tick];
  unfold set_A, set_B, set_IR, set_MAR, set_PC, set_SP, set_IE, set_registers,
    set_memory, set_halted, set_interruptQueue, set_logMessage;
  cbn -[mem_get mem_set tick].

(** X13. LOAD_A_VAL and LOAD_B_VAL put the byte that follows the opcode in
    A, respectively B, and leave PC two past the opcode; the other of the
    two registers, SP, IE and the memory are unchanged.  When the opcode
    sits in the last cell there is no such byte and the register becomes
    [undefined]. *)
Theorem tick_LOAD_VAL (s : CPU) (p : Z) :
  (executes s p LOAD_A_VAL ->
   exists s', tick s = Done s' /\
     A (registers s') = mem_get (memory s) (Num (p + 1)) /\
     B (registers s') = B (registers s) /\
     PC (registers s') = Num (p + 2) /\
     SP (registers s') = SP (registers s) /\
     IE (registers s') = IE (registers s) /\
     memory s' = memory s) /\
  (executes s p LOAD_B_VAL ->
   exists s', tick s = Done s' /\
     B (registers s') = mem_get (memory s) (Num (p + 1)) /\
     A (registers s') = A (registers s) /\
     PC (registers s') = Num (p + 2) /\
     SP (registers s') = SP (registers s) /\
     IE (registers s') = IE (registers s) /\
     memory s' = memory s) /\
  (mem_length (memory s) <= p + 1 -> mem_get (memory s) (Num (p + 1)) = Undefined).
Proof.
  replace (p + 2) with (p + 1 + 1) by lia.
  split; [|split; [|apply mem_get_out_of_range]];
    intros (Hh & Hn & Hpc & Hp & Hv & Hmax);
    pose proof (cell_address_exact _ _ _ Hp Hv Hmax) as Hex;
    explicit s; subst;
    rewrite tick_exec by exec_side;
    rewrite (mem_get_cell _ p _ Hp Hv);
    eexists; (split; [reflexivity|]); cbn -[mem_get]; exact_arith; repeat split.
Qed.

Lemma tick_LOAD_VAL_witness :
  exists s', tick createAndLoadCPU = Done s' /\
     A (registers s') = Num 0 /\
     B (registers s') = B (registers createAndLoadCPU) /\
     PC (registers s') = Num (MAIN_PROGRAM_START + 2) /\
     SP (registers s') = SP (registers createAndLoadCPU) /\
     IE (registers s') = IE (registers createAndLoadCPU) /\
     memory s' = memory createAndLoadCPU.
Proof.
  apply (proj1 (tick_LOAD_VAL createAndLoadCPU MAIN_PROGRAM_START)).
  unfold executes. split; [reflexivity|]. split; [right; reflexivity|].
  split; [reflexivity|]. split; [vm_compute; discriminate|]. split; [reflexivity | vm_compute; discriminate].
Defined.

(** X14. What STORE_A writes, LOAD_B_MEM reads back: after STORE_A addr
    followed by LOAD_B_MEM addr, with [addr] a cell of the memory other
    than the two cells of the second instruction, B holds A reduced to a
    byte, A is unchanged and PC is four past the first opcode. *)
Theorem STORE_A_then_LOAD_B_MEM (s : CPU) (p addr : Z) :
  executes s p STORE_A ->
  cells (memory s) !! Z.to_nat (p + 1) = Some addr ->
  cells (memory s) !! Z.to_nat (p + 2) = Some LOAD_B_MEM ->
  cells (memory s) !! Z.to_nat (p + 3) = Some addr ->
  0 <= addr < mem_length (memory s) ->
  addr <> p + 2 -> addr <> p + 3 ->
  B (registers (ticks 2 s)) = Num (to_uint8 (A (registers s))) /\
  A (registers (ticks 2 s)) = A (registers s) /\
  PC (registers (ticks 2 s)) = Num (p + 4) /\
  memory (ticks 2 s) = mem_set (memory s) (Num addr) (A (registers s)).
Proof.
  intros (Hh & Hn & Hpc & Hp & Hv & Hmax) H1 H2 H3 Haddr Hne2 Hne3.
  pose proof (cell_address_exact _ _ _ Hp Hv Hmax) as Hex.
  pose proof (cell_address_exact _ (p + 3) _ ltac:(lia) H3 Hmax) as Hex3.
  explicit s; subst. cbn [ticks].
  rewrite tick_exec by exec_side.
  rewrite (mem_get_cell _ p _ Hp Hv).
  simp_state. exact_arith.
  rewrite (mem_get_cell _ (p + 1) addr) by (assumption || lia).
  rewrite tick_exec by exec_side.
  rewrite (mem_get_set_other _ addr (p + 1 + 1)) by lia.
  replace (p + 1 + 1) with (p + 2) by lia.
  rewrite (mem_get_cell _ (p + 2) LOAD_B_MEM) by (assumption || lia).
  cbn -[mem_get mem_set].
  rewrite (mem_get_set_other _ addr (p + 2 + 1)) by lia.
  replace (p + 2 + 1) with (p + 3) by lia.
  rewrite (mem_get_cell _ (p + 3) addr) by (assumption || lia).
  rewrite mem_get_set_same by assumption. exact_arith.
  repeat split. f_equal. lia.
Qed.

Lemma STORE_A_then_LOAD_B_MEM_witness :
  let s := set_A (Num 300)
             (loadProgram [STORE_A; 0x10; LOAD_B_MEM; 0x10] 0 (new_CPU 256)) in
  B (registers (ticks 2 s)) = Num 44 /\
  A (registers (ticks 2 s)) = Num 300 /\
  PC (registers (ticks 2 s)) = Num 4 /\
  memory (ticks 2 s) = mem_set (memory s) (Num 0x10) (Num 300).
Proof.
  apply (STORE_A_then_LOAD_B_MEM
           (set_A (Num 300)
              (loadProgram [STORE_A; 0x10; LOAD_B_MEM; 0x10] 0 (new_CPU 256)))
           0 0x10).
  - unfold executes. split; [reflexivity|]. split; [right; reflexivity|].
    split; [reflexivity|]. split; [lia|]. split; [reflexivity | vm_compute; discriminate].
  - reflexivity.
  - reflexivity.
  - reflexivity.
  - vm_compute. split; [discriminate | reflexivity].
  - discriminate.
  - discriminate.
Defined.

(** X15. A register saved with PUSH_A and restored with POP_A right after
    comes back reduced to a byte: A becomes its own ToUint8 value (so a sum
    above 255 is not restored), SP is back where it was and PC is two past
    the PUSH_A, provided SP is a cell above 0 other than the one holding
    the POP_A. *)
Theorem PUSH_A_then_POP_A (s : CPU) (p : Z) :
  executes s p PUSH_A ->
  cells (memory s) !! Z.to_nat (p + 1) = Some POP_A ->
  0 < SP (registers s) < mem_length (memory s) ->
  SP (registers s) <> p + 1 ->
  A (registers (ticks 2 s)) = Num (to_uint8 (A (registers s))) /\
  SP (registers (ticks 2 s)) = SP (registers s) /\
  PC (registers (ticks 2 s)) = Num (p + 2) /\
  B (registers (ticks 2 s)) = B (registers s).
Proof.
  intros (Hh & Hn & Hpc & Hp & Hv & Hmax) H1 Hsp Hne.
  pose proof (cell_address_exact _ _ _ Hp Hv Hmax) as Hex.
  explicit s; subst. cbn [ticks].
  rewrite tick_exec by exec_side.
  rewrite (mem_get_cell _ p _ Hp Hv).
  simp_state.
  destruct (Z.ltb_spec 0 sp); [|lia].
  simp_state.
  rewrite tick_exec by exec_side.
  rewrite (mem_get_set_other _ sp (p + 1)) by lia.
  rewrite (mem_get_cell _ (p + 1) POP_A) by (assumption || lia).
  simp_state.
  rewrite mem_set_length.
  destruct (Z.ltb_spec (sp - 1) (mem_length m - 1)); [|lia].
  simp_state.
  replace (sp - 1 + 1) with sp by lia.
  rewrite mem_get_set_same by lia.
  repeat split. f_equal. lia.
Qed.

Lemma PUSH_A_then_POP_A_witness :
  let s := set_A (Num 300) (loadProgram [PUSH_A; POP_A] 0 (new_CPU 256)) in
  A (registers (ticks 2 s)) = Num 44 /\
  SP (registers (ticks 2 s)) = 255 /\
  PC (registers (ticks 2 s)) = Num 2 /\
  B (registers (ticks 2 s)) = Num 0.
Proof.
  apply (PUSH_A_then_POP_A
           (set_A (Num 300) (loadProgram [PUSH_A; POP_A] 0 (new_CPU 256))) 0).
  - unfold executes. split; [reflexivity|]. split; [right; reflexivity|].
    split; [reflexivity|]. split; [lia|]. split; [reflexivity | vm_compute; discriminate].
  - reflexivity.
  - vm_compute. split; reflexivity.
  - discriminate.
Defined.

(** ** Service and return *)

(** X16. Servicing an interrupt whose routine starts with IRET and
    executing that IRET takes two ticks and returns to the interrupted
    code: PC is the interrupted PC as a byte, SP and IE = 1 are restored,
    A and B are untouched, the code is gone from the queue and only the
    stack cell at SP has been written.  SP must be a cell above 0 that is
    neither the TIMER vector (cell 1) nor the cell of the IRET. *)
Theorem service_then_IRET (s : CPU) (c : Z) (rest : list Z) (isrAddress : Z) :
  halted s = false -> IE (registers s) = 1 ->
  interruptQueue s = c :: rest -> c <> 0 ->
  cells (memory s) !! Z.to_nat TIMER_ISR_ADDRESS_POINTER = Some isrAddress ->
  0 <= isrAddress ->
  cells (memory s) !! Z.to_nat isrAddress = Some IRET ->
  0 < SP (registers s) < mem_length (memory s) ->
  SP (registers s) <> TIMER_ISR_ADDRESS_POINTER ->
  SP (registers s) <> isrAddress ->
  PC (registers (ticks 2 s)) = Num (to_uint8 (PC (registers s))) /\
  SP (registers (ticks 2 s)) = SP (registers s) /\
  IE (registers (ticks 2 s)) = 1 /\
  A (registers (ticks 2 s)) = A (registers s) /\
  B (registers (ticks 2 s)) = B (registers s) /\
  interruptQueue (ticks 2 s) = rest /\
  memory (ticks 2 s) = mem_set (memory s) (Num (SP (registers s))) (PC (registers s)) /\
  halted (ticks 2 s) = false.
Proof.
  intros Hh Hie Hq Hc Hvec Hisr Hiret Hsp Hne1 Hne2.
  explicit s; subst.
  match goal with
  | |- context [ticks 2 ?s0] =>
      eassert (E : ticks 2 s0 = _);
      [cbn [ticks]; rewrite (tick_service s0 c rest eq_refl eq_refl eq_refl)|]
  end.
  { unfold handleInterrupt. cbn [interruptQueue].
    destruct (Z.eqb_spec c 0); [contradiction|].
    simp_state.
    destruct (Z.ltb_spec 0 sp); [|lia].
    simp_state.
    rewrite (mem_get_set_other _ sp TIMER_ISR_ADDRESS_POINTER) by assumption.
    rewrite (mem_get_cell _ TIMER_ISR_ADDRESS_POINTER isrAddress)
      by (assumption || discriminate).
    simp_state.
    rewrite tick_exec_incr by (left; discriminate).
    rewrite (mem_get_set_other _ sp isrAddress) by assumption.
    rewrite (mem_get_cell _ isrAddress IRET) by assumption.
    simp_state.
    rewrite mem_set_length.
    destruct (Z.ltb_spec (sp - 1) (mem_length m - 1)); [|lia].
    simp_state.
    replace (sp - 1 + 1) with sp by lia.
    rewrite mem_get_set_same by lia.
    simp_state. reflexivity. }
  rewrite E. cbn -[mem_set]. repeat split.
Qed.

Lemma service_then_IRET_witness :
  let s := loadProgram [0; 0x50] 0 (loadProgram [IRET] 0x50 pending_cpu) in
  PC (registers (ticks 2 s)) = Num 0 /\
  SP (registers (ticks 2 s)) = 255 /\
  IE (registers (ticks 2 s)) = 1 /\
  A (registers (ticks 2 s)) = A (registers s) /\
  B (registers (ticks 2 s)) = B (registers s) /\
  interruptQueue (ticks 2 s) = [] /\
  memory (ticks 2 s) = mem_set (memory s) (Num 255) (Num 0) /\
  halted (ticks 2 s) = false.
Proof.
  apply (service_then_IRET
           (loadProgram [0; 0x50] 0 (loadProgram [IRET] 0x50 pending_cpu))
           Interrupts.TIMER [] 0x50).
  - reflexivity.
  - reflexivity.
  - reflexivity.
  - discriminate.
  - reflexivity.
  - discriminate.
  - reflexivity.
  - vm_compute. split; reflexivity.
  - discriminate.
  - discriminate.
Defined.

(** ** Leaving the memory *)



(** X18. A JMP whose operand byte lies past the end of the memory sets PC
    to [undefined]; the next tick then raises a TypeError out of [fetch]
    (formatting the address of the fetch), after it has set MAR to
    [undefined], IR to the array's property "undefined" and PC to NaN, and
    without executing anything. *)
Theorem JMP_past_the_end_raises (s : CPU) (p : Z) :
  executes s p JMP -> mem_length (memory s) <= p + 1 ->
  exists s1 s2,
    tick s = Done s1 /\ PC (registers s1) = Undefined /\
    tick s1 = Threw s2 /\
    PC (registers s2) = NaN /\ MAR (registers s2) = Undefined /\
    IR (registers s2) = prop_undefined (memory s) /\
    A (registers s2) = A (registers s) /\ B (registers s2) = B (registers s) /\
    SP (registers s2) = SP (registers s) /\ IE (registers s2) = IE (registers s) /\
    memory s2 = memory s /\ halted s2 = false.
Proof.
  intros (Hh & Hn & Hpc & Hp & Hv & Hmax) Hlen.
  pose proof (cell_address_exact _ _ _ Hp Hv Hmax) as Hex.
  explicit s; subst.
  rewrite tick_exec by exec_side.
  rewrite (mem_get_cell _ p _ Hp Hv).
  simp_state. rewrite mem_get_out_of_range by assumption.
  do 2 eexists. split; [reflexivity|]. split; [reflexivity|].
  rewrite tick_fetch_execute by (reflexivity || exact Hn).
  unfold fetch. simp_state. repeat split.
Qed.

Lemma JMP_past_the_end_raises_witness :
  exists s1 s2,
    tick (loadProgram [JMP] 255 (new_CPU 256)) = Done s1 /\
    PC (registers s1) = Undefined /\
    tick s1 = Threw s2 /\
    PC (registers s2) = NaN /\ MAR (registers s2) = Undefined /\
    IR (registers s2) = Undefined /\
    A (registers s2) = Num 0 /\ B (registers s2) = Num 0 /\
    SP (registers s2) = 255 /\ IE (registers s2) = 0 /\
    memory s2 = memory (loadProgram [JMP] 255 (new_CPU 256)) /\ halted s2 = false.
Proof.
  apply (JMP_past_the_end_raises (loadProgram [JMP] 255 (new_CPU 256)) 255).
  - unfold executes. split; [reflexivity|]. split; [right; reflexivity|].
    split; [reflexivity|]. split; [lia|]. split; [reflexivity | vm_compute; discriminate].
  - vm_compute. discriminate.
Defined.



(** ** The interrupt service routine of the sample image *)

(** One fetch-execute tick whose opcode and operand cells are known: step
    the innermost [tick], look the cells up through the writes made so far
    and reduce. *)
Lemma mem_get_lookup m p v :
  cells m !! Z.to_nat p = Some v -> 0 <= p -> mem_get m (Num p) = Num v.
Proof. intros Hv Hp. now apply mem_get_cell. Qed.

Ltac lookup_through H :=
  rewrite ?mem_get_set_other by lia;
  rewrite (mem_get_lookup _ _ _ H) by lia.

Ltac fold_addresses :=
  repeat match goal with
         | |- context [Z.pos ?x + Z.pos ?y] =>
             let v := eval vm_compute in (Z.pos x + Z.pos y) in
             change (Z.pos x + Z.pos y) with v
         end.

Ltac step Hop :=
  rewrite tick_exec
    by (assumption || (left; discriminate) || (right; reflexivity)
        || (unfold MAX_EXACT; lia));
  lookup_through Hop;
  simp_state; fold_addresses; exact_arith; fold_addresses.

(** X20. The routine [isr] of the sample image is transparent to the code
    it interrupts.  From any running state with IE = 1 and a non-zero code
    at the head of the queue, whose memory holds the routine at ISR_START
    and its address in the TIMER vector, and whose stack (the three cells
    from SP down) lies above the routine's data, ten ticks (the service
    and the nine instructions up to IRET) give back PC, A and B (each as a
    byte), SP and IE = 1, consume the request, add the cell VALUE_1 to the
    cell COUNTER (the sum of the two bytes, modulo 256) and change no other
    cell outside the three stack cells. *)
Theorem isr_is_transparent (s : CPU) (c : Z) (rest : list Z) (counter value_1 : Z) :
  halted s = false -> IE (registers s) = 1 ->
  interruptQueue s = c :: rest -> c <> 0 ->
  cells (memory s) !! Z.to_nat TIMER_ISR_ADDRESS_POINTER = Some ISR_START ->
  image_at (memory s) ISR_START isr ->
  cells (memory s) !! Z.to_nat COUNTER_ADDRESS = Some counter ->
  cells (memory s) !! Z.to_nat VALUE_1_ADDR = Some value_1 ->
  VALUE_1_ADDR < SP (registers s) - 2 ->
  SP (registers s) < mem_length (memory s) ->
  let s' := ticks 10 s in
  PC (registers s') = Num (to_uint8 (PC (registers s))) /\
  A (registers s') = Num (to_uint8 (A (registers s))) /\
  B (registers s') = Num (to_uint8 (B (registers s))) /\
  SP (registers s') = SP (registers s) /\
  IE (registers s') = 1 /\
  interruptQueue s' = rest /\
  halted s' = false /\
  cells (memory s') !! Z.to_nat COUNTER_ADDRESS
    = Some (to_uint8 (js_add (Num counter) (Num value_1))) /\
  (is_byte counter -> is_byte value_1 ->
   to_uint8 (js_add (Num counter) (Num value_1)) = (counter + value_1) mod 256) /\
  (forall j, 0 <= j -> j <> COUNTER_ADDRESS ->
     j < SP (registers s) - 2 \/ SP (registers s) < j ->
     cells (memory s') !! Z.to_nat j = cells (memory s) !! Z.to_nat j).
Proof.
  intros Hh Hie Hq Hc Hvec Himg Hcnt Hval Hstack Hlen.
  unfold COUNTER_ADDRESS, VALUE_1_ADDR, ISR_START, TIMER_ISR_ADDRESS_POINTER,
    INTERRUPT_VECTOR_TABLE_START, Interrupts.TIMER in *.
  assert (I0 : cells (memory s) !! Z.to_nat 0x80 = Some PUSH_A) by exact (Himg 0%nat _ eq_refl).
  assert (I1 : cells (memory s) !! Z.to_nat 0x81 = Some PUSH_B) by exact (Himg 1%nat _ eq_refl).
  assert (I2 : cells (memory s) !! Z.to_nat 0x82 = Some LOAD_A_MEM) by exact (Himg 2%nat _ eq_refl).
  assert (I3 : cells (memory s) !! Z.to_nat 0x83 = Some 0xf0) by exact (Himg 3%nat _ eq_refl).
  assert (I4 : cells (memory s) !! Z.to_nat 0x84 = Some LOAD_B_MEM) by exact (Himg 4%nat _ eq_refl).
  assert (I5 : cells (memory s) !! Z.to_nat 0x85 = Some 0xf1) by exact (Himg 5%nat _ eq_refl).
  assert (I6 : cells (memory s) !! Z.to_nat 0x86 = Some ADD) by exact (Himg 6%nat _ eq_refl).
  assert (I7 : cells (memory s) !! Z.to_nat 0x87 = Some STORE_A) by exact (Himg 7%nat _ eq_refl).
  assert (I8 : cells (memory s) !! Z.to_nat 0x88 = Some 0xf0) by exact (Himg 8%nat _ eq_refl).
  assert (I9 : cells (memory s) !! Z.to_nat 0x89 = Some POP_B) by exact (Himg 9%nat _ eq_refl).
  assert (I10 : cells (memory s) !! Z.to_nat 0x8a = Some POP_A) by exact (Himg 10%nat _ eq_refl).
  assert (I11 : cells (memory s) !! Z.to_nat 0x8b = Some IRET) by exact (Himg 11%nat _ eq_refl).
  change (cells (memory s) !! Z.to_nat 1 = Some 0x80) in Hvec.
  clear Himg. explicit s; subst.
  match goal with
  | |- context [ticks 10 ?s0] =>
      eassert (E : ticks 10 s0 = _);
      [cbn [ticks]; rewrite (tick_service s0 c rest eq_refl eq_refl eq_refl)|]
  end.
  { unfold handleInterrupt. cbn [interruptQueue].
    destruct (Z.eqb_spec c 0); [contradiction|].
    simp_state.
    destruct (Z.ltb_spec 0 sp); [|lia]. simp_state.
    change TIMER_ISR_ADDRESS_POINTER with 1.
    lookup_through Hvec. simp_state.
    (* PUSH_A *)
    step I0. destruct (Z.ltb_spec 0 (sp - 1)); [|lia]. simp_state.
    (* PUSH_B *)
    step I1. destruct (Z.ltb_spec 0 (sp - 1 - 1)); [|lia]. simp_state.
    (* LOAD_A_MEM COUNTER_ADDRESS *)
    step I2. lookup_through I3. lookup_through Hcnt.
    (* LOAD_B_MEM VALUE_1_ADDR *)
    step I4. lookup_through I5. lookup_through Hval.
    (* ADD *)
    step I6.
    (* STORE_A COUNTER_ADDRESS *)
    step I7. lookup_through I8. simp_state.
    (* POP_B *)
    step I9. rewrite !mem_set_length.
    destruct (Z.ltb_spec (sp - 1 - 1 - 1) (mem_length m - 1)); [|lia]. simp_state.
    replace (sp - 1 - 1 - 1 + 1) with (sp - 1 - 1) by lia.
    rewrite (mem_get_set_other _ 240 (sp - 1 - 1)) by lia.
    rewrite mem_get_set_same by (rewrite !mem_set_length; lia).
    (* POP_A *)
    step I10. rewrite !mem_set_length.
    destruct (Z.ltb_spec (sp - 1 - 1) (mem_length m - 1)); [|lia]. simp_state.
    replace (sp - 1 - 1 + 1) with (sp - 1) by lia.
    rewrite (mem_get_set_other _ 240 (sp - 1)) by lia.
    rewrite (mem_get_set_other _ (sp - 1 - 1) (sp - 1)) by lia.
    rewrite mem_get_set_same by (rewrite !mem_set_length; lia).
    (* IRET *)
    step I11. rewrite !mem_set_length.
    destruct (Z.ltb_spec (sp - 1) (mem_length m - 1)); [|lia]. simp_state.
    replace (sp - 1 + 1) with sp by lia.
    rewrite (mem_get_set_other _ 240 sp) by lia.
    rewrite (mem_get_set_other _ (sp - 1 - 1) sp) by lia.
    rewrite (mem_get_set_other _ (sp - 1) sp) by lia.
    rewrite mem_get_set_same by lia.
    simp_state. reflexivity. }
  cbv zeta. rewrite E. clear E. cbn -[mem_set].
  repeat split.
  - rewrite mem_set_cell by (rewrite !mem_set_length; lia). reflexivity.
  - now apply to_uint8_add_bytes.
  - intros j Hj Hj1 Hj2.
    rewrite !mem_set_other by lia. reflexivity.
Qed.

Lemma isr_is_transparent_witness :
  let s' := ticks 10 pending_cpu in
  PC (registers s') = Num 0x29 /\
  A (registers s') = Num 0 /\
  B (registers s') = Num 0 /\
  SP (registers s') = 255 /\
  IE (registers s') = 1 /\
  interruptQueue s' = [] /\
  halted s' = false /\
  cells (memory s') !! Z.to_nat COUNTER_ADDRESS = Some 1 /\
  (is_byte 0 -> is_byte 1 ->
   to_uint8 (js_add (Num 0) (Num 1)) = (0 + 1) mod 256) /\
  (forall j, 0 <= j -> j <> COUNTER_ADDRESS ->
     j < 255 - 2 \/ 255 < j ->
     cells (memory s') !! Z.to_nat j = cells (memory pending_cpu) !! Z.to_nat j).
Proof.
  apply (isr_is_transparent pending_cpu Interrupts.TIMER [] 0 1).
  - reflexivity.
  - reflexivity.
  - reflexivity.
  - discriminate.
  - reflexivity.
  - intros i value Hi.
    do 12 (destruct i as [|i]; [injection Hi as <-; reflexivity|]).
    discriminate.
  - reflexivity.
  - reflexivity.
  - vm_compute. reflexivity.
  - vm_compute. reflexivity.
Defined.

(** ** The main loop of the sample image *)

Lemma ticks_add a b s : ticks (a + b) s = ticks b (ticks a s).
Proof. revert s. induction a as [|a IH]; intros s; [reflexivity|]. cbn. apply IH. Qed.

Lemma image_at_mem_set m start image i v :
  image_at m start image ->
  i < start \/ start + Z.of_nat (length image) <= i ->
  0 <= start ->
  image_at (mem_set m (Num i) v) start image.
Proof.
  intros Himg Hi Hs k value Hk.
  rewrite mem_set_other.
  - now apply Himg.
  - lia.
  - apply lookup_lt_Some in Hk. lia.
Qed.

(** One pass through the loop body takes nine ticks. *)
Lemma main_loop_pass s r1 i1 r2 i2 :
  at_loop_head s r1 i1 r2 i2 ->
  at_loop_head (ticks 9 s)
    (to_uint8 (js_add (Num r1) (Num i1))) i1
    (to_uint8 (js_add (Num r2) (Num i2))) i2 /\
  SP (registers (ticks 9 s)) = SP (registers s) /\
  IE (registers (ticks 9 s)) = IE (registers s) /\
  (forall j, 0 <= j -> j <> RESULT_ADDRESS -> j <> RESULT_ADDRESS_2 ->
     cells (memory (ticks 9 s)) !! Z.to_nat j = cells (memory s) !! Z.to_nat j).
Proof.
  intros (Hh & Hq & Hpc & Himg & Hr1 & Hi1 & Hr2 & Hi2).
  assert (L9 : cells (memory s) !! Z.to_nat 0x29 = Some LOAD_A_MEM) by exact (Himg 9%nat _ eq_refl).
  assert (L10 : cells (memory s) !! Z.to_nat 0x2a = Some 0xf4) by exact (Himg 10%nat _ eq_refl).
  assert (L11 : cells (memory s) !! Z.to_nat 0x2b = Some LOAD_B_MEM) by exact (Himg 11%nat _ eq_refl).
  assert (L12 : cells (memory s) !! Z.to_nat 0x2c = Some 0xf5) by exact (Himg 12%nat _ eq_refl).
  assert (L13 : cells (memory s) !! Z.to_nat 0x2d = Some ADD) by exact (Himg 13%nat _ eq_refl).
  assert (L14 : cells (memory s) !! Z.to_nat 0x2e = Some STORE_A) by exact (Himg 14%nat _ eq_refl).
  assert (L15 : cells (memory s) !! Z.to_nat 0x2f = Some 0xf4) by exact (Himg 15%nat _ eq_refl).
  assert (L16 : cells (memory s) !! Z.to_nat 0x30 = Some LOAD_A_MEM) by exact (Himg 16%nat _ eq_refl).
  assert (L17 : cells (memory s) !! Z.to_nat 0x31 = Some 0xf6) by exact (Himg 17%nat _ eq_refl).
  assert (L18 : cells (memory s) !! Z.to_nat 0x32 = Some LOAD_B_MEM) by exact (Himg 18%nat _ eq_refl).
  assert (L19 : cells (memory s) !! Z.to_nat 0x33 = Some 0xf7) by exact (Himg 19%nat _ eq_refl).
  assert (L20 : cells (memory s) !! Z.to_nat 0x34 = Some ADD) by exact (Himg 20%nat _ eq_refl).
  assert (L21 : cells (memory s) !! Z.to_nat 0x35 = Some STORE_A) by exact (Himg 21%nat _ eq_refl).
  assert (L22 : cells (memory s) !! Z.to_nat 0x36 = Some 0xf6) by exact (Himg 22%nat _ eq_refl).
  assert (L23 : cells (memory s) !! Z.to_nat 0x37 = Some JMP) by exact (Himg 23%nat _ eq_refl).
  assert (L24 : cells (memory s) !! Z.to_nat 0x38 = Some 0x29) by exact (Himg 24%nat _ eq_refl).
  assert (Hlen : 0xf7 < mem_length (memory s)).
  { apply lookup_lt_Some in Hi2. unfold mem_length.
    change (Z.to_nat INCREMENT_VALUE_2_ADDR) with 247%nat in Hi2. lia. }
  unfold RESULT_ADDRESS, INCREMENT_VALUE_ADDR, RESULT_ADDRESS_2, INCREMENT_VALUE_2_ADDR in *.
  change (MAIN_PROGRAM_START + 9) with 0x29 in *.
  explicit s; subst.
  match goal with
  | |- context [ticks 9 ?s0] => eassert (E : ticks 9 s0 = _); [cbn [ticks]|]
  end.
  { step L9. lookup_through L10. lookup_through Hr1.
    step L11. lookup_through L12. lookup_through Hi1.
    step L13.
    step L14. lookup_through L15. simp_state.
    step L16. lookup_through L17. lookup_through Hr2.
    step L18. lookup_through L19. lookup_through Hi2.
    step L20.
    step L21. lookup_through L22. simp_state.
    step L23. lookup_through L24. simp_state.
    reflexivity. }
  rewrite E. clear E. unfold at_loop_head.
  unfold RESULT_ADDRESS, INCREMENT_VALUE_ADDR, RESULT_ADDRESS_2, INCREMENT_VALUE_2_ADDR.
  change (MAIN_PROGRAM_START + 9) with 0x29.
  cbn -[mem_set image_at].
  assert (Hcell1 : cells (mem_set (mem_set m (Num 244) (to_double (r1 + i1))) (Num 246)
                            (to_double (r2 + i2))) !! Z.to_nat 244
                   = Some (to_uint8 (to_double (r1 + i1)))).
  { rewrite mem_set_other by lia. now rewrite mem_set_cell by lia. }
  assert (Hcell2 : cells (mem_set (mem_set m (Num 244) (to_double (r1 + i1))) (Num 246)
                            (to_double (r2 + i2))) !! Z.to_nat 246
                   = Some (to_uint8 (to_double (r2 + i2)))).
  { now rewrite mem_set_cell by (rewrite mem_set_length; lia). }
  repeat split; trivial.
  - apply image_at_mem_set; [apply image_at_mem_set; trivial | |];
      unfold MAIN_PROGRAM_START; cbn; lia.
  - now rewrite !mem_set_other by lia.
  - now rewrite !mem_set_other by lia.
  - intros j Hj Hj1 Hj2. now rewrite !mem_set_other by lia.
Qed.

Lemma loop_sum_iter (i r : Z) (n : nat) :
  is_byte r -> is_byte i ->
  Nat.iter n (loop_sum i) r = (r + Z.of_nat n * i) mod 256.
Proof.
  intros Hr Hi. induction n as [|n IH].
  - cbn [Nat.iter Z.of_nat]. unfold is_byte in Hr.
    rewrite Z.mul_0_l, Z.add_0_r, Z.mod_small by lia. reflexivity.
  - change (Nat.iter (S n) (loop_sum i) r)
      with (loop_sum i (Nat.iter n (loop_sum i) r)).
    rewrite IH. unfold loop_sum.
    rewrite to_uint8_add_bytes by (assumption || (apply Z.mod_pos_bound; lia)).
    rewrite Zplus_mod_idemp_l. f_equal. lia.
Qed.

Lemma main_loop_passes (n : nat) (s : CPU) (r1 i1 r2 i2 : Z) :
  at_loop_head s r1 i1 r2 i2 ->
  at_loop_head (ticks (9 * n) s)
    (Nat.iter n (loop_sum i1) r1) i1 (Nat.iter n (loop_sum i2) r2) i2 /\
  SP (registers (ticks (9 * n) s)) = SP (registers s) /\
  IE (registers (ticks (9 * n) s)) = IE (registers s).
Proof.
  intros Hs. induction n as [|n IH].
  - cbn [Nat.mul ticks]. auto.
  - replace (9 * S n)%nat with (9 * n + 9)%nat by lia. rewrite ticks_add.
    destruct IH as (IH & Hsp & Hie).
    destruct (main_loop_pass _ _ _ _ _ IH) as (Hp & Hsp' & Hie' & _).
    rewrite Hsp', Hie'. split; [exact Hp | auto].
Qed.

(** X21. The main loop of the sample image counts its passes.  Started at
    the head of the loop with no interrupt pending and byte values [r1]
    and [r2] in the two result cells, after [n] passes (9 n ticks) the CPU
    is at the head of the loop again and each result cell has had its
    increment cell added [n] times, each sum stored as a byte: the result
    cells hold r1 + n * i1 and r2 + n * i2 modulo 256, where the bytes [i1]
    and [i2] are the increment cells; SP and IE have not changed. *)
Theorem main_loop_counts (n : nat) (s : CPU) (r1 i1 r2 i2 : Z) :
  at_loop_head s r1 i1 r2 i2 ->
  0 <= r1 < 256 -> 0 <= r2 < 256 ->
  at_loop_head (ticks (9 * n) s)
    (Nat.iter n (loop_sum i1) r1) i1 (Nat.iter n (loop_sum i2) r2) i2 /\
  (is_byte i1 -> Nat.iter n (loop_sum i1) r1 = (r1 + Z.of_nat n * i1) mod 256) /\
  (is_byte i2 -> Nat.iter n (loop_sum i2) r2 = (r2 + Z.of_nat n * i2) mod 256) /\
  SP (registers (ticks (9 * n) s)) = SP (registers s) /\
  IE (registers (ticks (9 * n) s)) = IE (registers s).
Proof.
  intros Hs Hr1 Hr2.
  destruct (main_loop_passes n s r1 i1 r2 i2 Hs) as (Hhead & Hsp & Hie).
  split; [exact Hhead|].
  split; [now apply loop_sum_iter|]. split; [now apply loop_sum_iter|].
  split; assumption.
Qed.

Lemma main_loop_counts_witness :
  at_loop_head (ticks (9 * 300) enabled_cpu)
    (Nat.iter 300 (loop_sum 1) 0) 1 (Nat.iter 300 (loop_sum 2) 0) 2 /\
  (is_byte 1 -> Nat.iter 300 (loop_sum 1) 0 = (0 + Z.of_nat 300 * 1) mod 256) /\
  (is_byte 2 -> Nat.iter 300 (loop_sum 2) 0 = (0 + Z.of_nat 300 * 2) mod 256) /\
  SP (registers (ticks (9 * 300) enabled_cpu)) = SP (registers enabled_cpu) /\
  IE (registers (ticks (9 * 300) enabled_cpu)) = IE (registers enabled_cpu).
Proof.
  apply (main_loop_counts 300 enabled_cpu 0 1 0 2).
  - unfold at_loop_head. split; [reflexivity|]. split; [reflexivity|].
    split; [reflexivity|]. split; [|repeat split].
    intros i value Hi.
    do 25 (destruct i as [|i]; [injection Hi as <-; reflexivity|]).
    discriminate.
  - lia.
  - lia.
Defined.

(** * Properties of the presentation layer *)

(** ** The program listing *)

Lemma parseSection_bytes_upto n : forall section currentAddr,
  (length section <= n)%nat ->
  concat (listing_bytes <$> parseSection section currentAddr) = section.
Proof.
  induction n as [|n IH]; intros section currentAddr Hlen.
  - destruct section; [reflexivity | cbn in Hlen; lia].
  - destruct section as [|instructionEnum rest]; [reflexivity|].
    cbn [parseSection]. cbv zeta.
    destruct (bool_decide (instructionEnum ∈ operand_opcodes)).
    + destruct rest as [|operand rest']; [reflexivity|].
      cbn [fmap list_fmap concat listing_bytes app]. f_equal. f_equal.
      apply IH. cbn in Hlen. lia.
    + cbn [fmap list_fmap concat listing_bytes app]. f_equal.
      apply IH. cbn in Hlen. lia.
Qed.

(** X22. The listing loses nothing: the opcode and operand bytes of the
    entries [parseSection] returns, put end to end, are the section it was
    given, whatever bytes it holds (data, or a two-byte opcode cut off at
    the end of the section). *)
Theorem parseSection_bytes (section : list Z) (startAddr : Z) :
  concat (listing_bytes <$> parseSection section startAddr) = section.
Proof. now apply (parseSection_bytes_upto (length section)). Qed.

Lemma parseSection_entries_upto n : forall section currentAddr entry,
  (length section <= n)%nat ->
  entry ∈ parseSection section currentAddr ->
  exists (i : nat) instructionEnum,
    section !! i = Some instructionEnum /\
    entry = Line (currentAddr + Z.of_nat i)
                 (match InstructionNames instructionEnum with
                  | Some name => name
                  | None => "DATA"%string
                  end)
                 (if bool_decide (instructionEnum ∈ operand_opcodes)
                  then section !! S i else None)
                 instructionEnum.
Proof.
  induction n as [|n IH]; intros section currentAddr entry Hlen Hin.
  - destruct section; [|cbn in Hlen; lia]. cbn in Hin. now apply elem_of_nil in Hin.
  - destruct section as [|e rest]; [cbn in Hin; now apply elem_of_nil in Hin|].
    cbn [parseSection] in Hin. cbv zeta in Hin.
    destruct (bool_decide (e ∈ operand_opcodes)) eqn:He.
    + destruct rest as [|operand rest'].
      * apply list_elem_of_singleton in Hin. subst entry.
        exists 0%nat, e. rewrite He, Z.add_0_r. split; reflexivity.
      * apply elem_of_cons in Hin as [->|Hin].
        -- exists 0%nat, e. rewrite He, Z.add_0_r. split; reflexivity.
        -- apply IH in Hin as (i & e' & Hi & ->); [|cbn in Hlen; lia].
           exists (S (S i)), e'. split; [exact Hi|].
           cbn [lookup list_lookup]. f_equal. lia.
    + apply elem_of_cons in Hin as [->|Hin].
      * exists 0%nat, e. rewrite He, Z.add_0_r. split; reflexivity.
      * apply IH in Hin as (i & e' & Hi & ->); [|cbn in Hlen; lia].
        exists (S i), e'. split; [exact Hi|].
        cbn [lookup list_lookup]. f_equal. lia.
Qed.

(** X23. Every entry of the listing is a line that describes the byte of
    the section at its own address: the entry at address startAddr + i
    carries the byte section[i] as its opcode, the name of that byte (or
    "DATA"), and as operand the next byte section[i + 1] when the byte is
    one of the seven opcodes with an operand, null otherwise or when the
    section ends there. *)
Theorem parseSection_entries (section : list Z) (startAddr : Z) (entry : listing) :
  entry ∈ parseSection section startAddr ->
  exists (i : nat) instructionEnum,
    section !! i = Some instructionEnum /\
    entry = Line (startAddr + Z.of_nat i)
                 (match InstructionNames instructionEnum with
                  | Some name => name
                  | None => "DATA"%string
                  end)
                 (if bool_decide (instructionEnum ∈ operand_opcodes)
                  then section !! S i else None)
                 instructionEnum.
Proof. now apply (parseSection_entries_upto (length section)). Qed.

Lemma parseSection_entries_witness :
  exists (i : nat) instructionEnum,
    isr !! i = Some instructionEnum /\
    Line 0x87 "STORE_A" (Some COUNTER_ADDRESS) STORE_A
    = Line (ISR_START + Z.of_nat i)
           (match InstructionNames instructionEnum with
            | Some name => name
            | None => "DATA"%string
            end)
           (if bool_decide (instructionEnum ∈ operand_opcodes)
            then isr !! S i else None)
           instructionEnum.
Proof.
  apply (parseSection_entries isr ISR_START
           (Line 0x87 "STORE_A" (Some COUNTER_ADDRESS) STORE_A)).
  vm_compute. do 5 apply list_elem_of_further. apply list_elem_of_here.
Defined.

Lemma operand_opcodes_cases op :
  op ∈ operand_opcodes ->
  op = LOAD_A_VAL \/ op = LOAD_B_VAL \/ op = LOAD_A_MEM \/ op = LOAD_B_MEM \/
  op = STORE_A \/ op = STORE_B \/ op = JMP.
Proof.
  unfold operand_opcodes. intros H.
  repeat (apply elem_of_cons in H as [H|H]; [tauto|]).
  now apply elem_of_nil in H.
Qed.

(** X24. The listing and the executor agree on instruction sizes: a tick
    that executes the byte [op] at address [p], for any byte other than
    JMP and IRET (which set PC themselves), leaves PC at [p] plus the size
    [parseSection] gives the instruction: 2 for the opcodes with an
    operand, 1 for every other byte, unknown bytes included. *)
Theorem tick_advances_by_listing_size (s : CPU) (p op : Z) :
  executes s p op -> op <> JMP -> op <> IRET ->
  PC (registers (state_of (tick s)))
  = Num (p + (if bool_decide (op ∈ operand_opcodes) then 2 else 1)).
Proof.
  intros (Hh & Hn & Hpc & Hp & Hv & Hmax) Hj Hi.
  pose proof (cell_address_exact _ _ _ Hp Hv Hmax) as Hex.
  explicit s; subst.
  rewrite tick_exec by exec_side.
  rewrite (mem_get_cell _ p _ Hp Hv).
  unfold decodeAndExecute. cbn [registers IR decode].
  destruct (decode_num op) as [o|] eqn:Hd.
  - apply decode_num_code in Hd. subst op.
    destruct o; try (now elim Hj); try (now elim Hi); simp_state; split_ifs;
      exact_arith;
      try (rewrite bool_decide_eq_true_2
             by (unfold operand_opcodes;
                 repeat first [apply list_elem_of_here | apply list_elem_of_further]));
      try (rewrite bool_decide_eq_false_2
             by (let H := fresh in
                 intros H; apply operand_opcodes_cases in H;
                 destruct H as [H|[H|[H|[H|[H|[H|H]]]]]]; discriminate H));
      f_equal; lia.
  - rewrite bool_decide_eq_false_2; [reflexivity|].
    intros Hop. apply operand_opcodes_cases in Hop.
    destruct Hop as [-> | [-> | [-> | [-> | [-> | [-> | ->]]]]]]; discriminate.
Qed.

Lemma tick_advances_by_listing_size_witness :
  PC (registers (state_of (tick add_cpu))) = Num (4 + 1) /\
  PC (registers (state_of (tick store_cpu))) = Num (5 + 2).
Proof.
  split.
  - apply (tick_advances_by_listing_size add_cpu 4 ADD).
    + unfold executes. split; [reflexivity|]. split; [right; reflexivity|].
      split; [reflexivity|]. split; [lia|]. split; [reflexivity | vm_compute; discriminate].
    + discriminate.
    + discriminate.
  - apply (tick_advances_by_listing_size store_cpu 5 STORE_A).
    + unfold executes. split; [reflexivity|]. split; [right; reflexivity|].
      split; [reflexivity|]. split; [lia|]. split; [reflexivity | vm_compute; discriminate].
    + discriminate.
    + discriminate.
Defined.

(** X25. The listing names a byte exactly when the executor has a case
    for it: [InstructionNames] is defined on a number if and only if
    [decodeAndExecute] does not take its default branch on it, so the
    entries shown as "DATA" are the bytes executed as unknown
    instructions. *)
Theorem InstructionNames_iff_decoded (value : Z) :
  is_Some (InstructionNames value) <-> is_Some (decode (Num value)).
Proof.
  cbn [decode]. split.
  - unfold InstructionNames. intros [name Hn].
    destruct (filter _ _) as [|kv l] eqn:Hf; [discriminate|].
    assert (Hin : kv ∈ filter (fun kv => kv.2 = value) (reverse InstructionSet_entries))
      by (rewrite Hf; apply list_elem_of_here).
    apply list_elem_of_filter in Hin as [Hv Hin].
    apply elem_of_reverse in Hin. unfold InstructionSet_entries in Hin.
    repeat (apply elem_of_cons in Hin as [->|Hin]; [subst value; cbn; eauto|]).
    now apply elem_of_nil in Hin.
  - intros [op Hd]. apply decode_num_code in Hd. subst value.
    destruct op; vm_compute; eauto.
Qed.

(** ** The state updaters of [App] *)

Lemma copy_of_no_property s :
  prop_undefined (memory s) = Undefined -> copy_of s = set_logMessage LogWaiting s.
Proof.
  intros Hp. explicit s. destruct m as [cs pu]. cbn in Hp. subst pu. reflexivity.
Qed.

(** X26. Stepping through the interface is stepping the CPU: when the
    memory array carries no property "undefined", the updater of [App]
    (copy the object, tick the copy) raises exactly when [tick] on the
    object itself would, and returns the same registers, memory, queue and
    halted flag. *)
Theorem App_tick_agrees_with_tick (prevCpu : CPU) :
  prop_undefined (memory prevCpu) = Undefined ->
  raised (App_tick prevCpu) = raised (tick prevCpu) /\
  same_machine (state_of (tick prevCpu)) (state_of (App_tick prevCpu)).
Proof.
  intros Hp. unfold App_tick. rewrite (copy_of_no_property prevCpu Hp).
  apply tick_set_logMessage.
Qed.

Lemma App_tick_agrees_with_tick_witness :
  raised (App_tick pending_cpu) = raised (tick pending_cpu) /\
  same_machine (state_of (tick pending_cpu)) (state_of (App_tick pending_cpu)).
Proof. apply (App_tick_agrees_with_tick pending_cpu). reflexivity. Defined.

(** X27. The "Trigger Interrupt" updater leaves registers, memory cells
    and halted flag alone and is idempotent on the queue: TIMER is
    appended if it is not queued, and a second trigger changes nothing in
    the queue.  Because the copy does not take over [logMessage], a
    trigger while TIMER is already queued resets the diagnostic to the
    initial "waiting" text. *)
Theorem handleTriggerInterrupt_effect (prevCpu : CPU) :
  registers (handleTriggerInterrupt prevCpu) = registers prevCpu /\
  cells (memory (handleTriggerInterrupt prevCpu)) = cells (memory prevCpu) /\
  halted (handleTriggerInterrupt prevCpu) = halted prevCpu /\
  interruptQueue (handleTriggerInterrupt prevCpu)
  = (if decide (Interrupts.TIMER ∈ interruptQueue prevCpu)
     then interruptQueue prevCpu
     else interruptQueue prevCpu ++ [Interrupts.TIMER]) /\
  logMessage (handleTriggerInterrupt prevCpu)
  = (if decide (Interrupts.TIMER ∈ interruptQueue prevCpu)
     then LogWaiting
     else LogRequested Interrupts.TIMER) /\
  interruptQueue (handleTriggerInterrupt (handleTriggerInterrupt prevCpu))
  = interruptQueue (handleTriggerInterrupt prevCpu) /\
  logMessage (handleTriggerInterrupt (handleTriggerInterrupt prevCpu)) = LogWaiting.
Proof.
  assert (Hone : forall s,
    registers (handleTriggerInterrupt s) = registers s /\
    cells (memory (handleTriggerInterrupt s)) = cells (memory s) /\
    halted (handleTriggerInterrupt s) = halted s /\
    interruptQueue (handleTriggerInterrupt s)
    = (if decide (Interrupts.TIMER ∈ interruptQueue s)
       then interruptQueue s else interruptQueue s ++ [Interrupts.TIMER]) /\
    logMessage (handleTriggerInterrupt s)
    = (if decide (Interrupts.TIMER ∈ interruptQueue s)
       then LogWaiting else LogRequested Interrupts.TIMER)).
  { intros s. unfold handleTriggerInterrupt, requestInterrupt.
    change (interruptQueue (copy_of s)) with (interruptQueue s).
    destruct (decide (Interrupts.TIMER ∈ interruptQueue s)) as [Hin|Hnin].
    - rewrite bool_decide_eq_true_2 by assumption. repeat split.
    - rewrite bool_decide_eq_false_2 by assumption. repeat split. }
  destruct (Hone prevCpu) as (Hr & Hm & Hh & Hq & Hl).
  destruct (Hone (handleTriggerInterrupt prevCpu)) as (_ & _ & _ & Hq2 & Hl2).
  assert (Hin : Interrupts.TIMER ∈ interruptQueue (handleTriggerInterrupt prevCpu)).
  { rewrite Hq. destruct (decide _); [assumption|].
    apply elem_of_app. right. apply list_elem_of_here. }
  destruct (decide (Interrupts.TIMER ∈ interruptQueue (handleTriggerInterrupt prevCpu)));
    [|contradiction].
  repeat split; assumption.
Qed.

(** ** Hexadecimal labels *)

Lemma to_N_padStart0 k digits :
  HexString.Raw.to_N (Nat.iter k (String.append "0") digits) 0%N
  = HexString.Raw.to_N digits 0%N.
Proof. induction k as [|k IH]; [reflexivity|]. cbn. exact IH. Qed.

Lemma to_Z_0x rest :
  HexString.to_Z (String.append "0x" rest) = Z.of_N (HexString.Raw.to_N rest 0%N).
Proof.
  cbv -[HexString.Raw.to_N]. destruct (HexString.Raw.to_N rest 0%N); reflexivity.
Qed.

Lemma hex_label_bytes :
  forallb (fun z => match hex_label (Num z) with
                    | Some label => Nat.eqb (String.length label) 4
                    | None => false
                    end) (seqZ 0 256) = true.
Proof. vm_compute. reflexivity. Qed.

(** X28. The hexadecimal label shown for registers and addresses is
    faithful: for every non-negative integer it is the text "0x" followed
    by digits that read back as that integer, for a byte it has exactly
    two digits, and formatting fails (raises) for [undefined] only. *)
Theorem hex_label_reads_back (value : jsval) :
  (forall z, value = Num z -> 0 <= z ->
     exists label, hex_label value = Some label /\ HexString.to_Z label = z) /\
  (forall z, value = Num z -> 0 <= z < 256 ->
     exists label, hex_label value = Some label /\ String.length label = 4%nat) /\
  (hex_label value = None <-> value = Undefined).
Proof.
  split; [|split].
  - intros z -> Hz. destruct z as [|p|p]; [eexists; split; reflexivity | | lia].
    eexists. split; [reflexivity|].
    unfold padStart0.
    rewrite to_Z_0x, to_N_padStart0, HexString.Raw.to_N_of_pos. reflexivity.
  - intros z -> Hz.
    pose proof hex_label_bytes as Hall. rewrite forallb_forall in Hall.
    specialize (Hall z). destruct (hex_label (Num z)) as [label|].
    + exists label. split; [reflexivity|]. apply Nat.eqb_eq. apply Hall.
      apply list_elem_of_In, elem_of_seqZ. lia.
    + exfalso. assert (false = true); [|discriminate]. apply Hall.
      apply list_elem_of_In, elem_of_seqZ. lia.
  - destruct value as [[|p|p]| | | |]; cbn; split; intros H; congruence.
Qed.

Lemma hex_label_reads_back_witness :
  (exists label, hex_label (Num 0x1f4) = Some label /\ HexString.to_Z label = 0x1f4) /\
  (exists label, hex_label (Num 10) = Some label /\ String.length label = 4%nat).
Proof.
  destruct (hex_label_reads_back (Num 0x1f4)) as (H1 & _).
  destruct (hex_label_reads_back (Num 10)) as (_ & H2 & _).
  split.
  - apply (H1 0x1f4); [reflexivity | lia].
  - apply (H2 10); [reflexivity | lia].
Defined.
